(** * AF_XDP sockets: the socket layer of net/xdp/xsk.c and the user-side
      ring helpers of samples/bpf/xdpsock_user.c

    The kernel side is embedded as functions over an explicit kernel state
    (devices, umems, sockets, descriptor table, flat memory, and a trace of
    the calls made into the rest of the kernel).  A dereference of a NULL
    pointer is a fault: the function returns [None].

    The ring helpers of xsk_queue.h and the umem helpers of xdp_umem.h are
    not among the sources; they are modelled from the specification and
    every such definition says so in its comment. *)

From stdpp Require Import base option list gmap.
From Stdlib Require Import ZArith Lia.

Local Open Scope Z_scope.

(** ** Machine integers *)

Definition u32 (x : Z) : Z := x mod 2 ^ 32.

Definition u64 (x : Z) : Z := x mod 2 ^ 64.

(** is_power_of_2() of linux/log2.h: n != 0 && (n & (n - 1)) == 0. *)
Definition is_power_of_2 (n : Z) : bool :=
  negb (n =? 0) && (Z.land n (n - 1) =? 0).

(** ** Error numbers (asm-generic/errno*.h) and other header constants *)

Definition ENXIO : Z := 6.
Definition EBADF : Z := 9.
Definition EAGAIN : Z := 11.
Definition ENOMEM : Z := 12.
Definition EFAULT : Z := 14.
Definition EBUSY : Z := 16.
Definition ENODEV : Z := 19.
Definition EINVAL : Z := 22.
Definition ENOSPC : Z := 28.
Definition ENOTSOCK : Z := 88.
Definition EMSGSIZE : Z := 90.
Definition ENOPROTOOPT : Z := 92.
Definition EOPNOTSUPP : Z := 95.
Definition ENETDOWN : Z := 100.
Definition ENOBUFS : Z := 105.

Definition AF_XDP : Z := 44.
Definition PF_XDP : Z := AF_XDP.
Definition SOL_XDP : Z := 283.
Definition XDP_SHARED_UMEM : Z := 1.
Definition IFF_UP : Z := 1.
Definition MSG_DONTWAIT : Z := 64.
Definition NET_XMIT_DROP : Z := 1.
Definition NETDEV_TX_BUSY : Z := 16.
Definition TX_BATCH_SIZE : nat := 16.
(** sizeof(struct sockaddr_xdp): u16 family, u16 flags, three u32. *)
Definition sizeof_sockaddr_xdp : Z := 16.

(** ** Descriptors and rings *)

Record xdp_desc := mk_desc { d_idx : Z; d_len : Z; d_offset : Z }.

Global Instance xdp_desc_inhabited : Inhabited xdp_desc :=
  populate (mk_desc 0 0 0).

Global Instance xdp_desc_eq_dec : EqDecision xdp_desc.
Proof. solve_decision. Defined.

Record xdp_umem_props := mk_props { p_frame_size : Z; p_nframes : Z }.

Global Instance xdp_umem_props_eq_dec : EqDecision xdp_umem_props.
Proof. solve_decision. Defined.

(** struct xsk_queue.  The ring has the two shared counters [producer] and
    [consumer] of the specification and the producer's private position
    [prod_head]: slots in [producer, prod_head) are reserved or written but
    not yet published. *)
Record xsk_queue (A : Type) := mk_queue {
  umem_props : option xdp_umem_props;
  ring_mask : Z;
  nentries : Z;
  prod_head : Z;
  producer : Z;
  consumer : Z;
  ring_desc : list A;
  invalid_descs : Z
}.
Arguments mk_queue {A}.
Arguments umem_props {A}.
Arguments ring_mask {A}.
Arguments nentries {A}.
Arguments prod_head {A}.
Arguments producer {A}.
Arguments consumer {A}.
Arguments ring_desc {A}.
Arguments invalid_descs {A}.

Module Ring.
Section ring.
Context {A : Type} `{Inhabited A}.

Definition set_prod_head (q : xsk_queue A) (v : Z) : xsk_queue A :=
  mk_queue (umem_props q) (ring_mask q) (nentries q) v (producer q)
           (consumer q) (ring_desc q) (invalid_descs q).

Definition set_producer (q : xsk_queue A) (v : Z) : xsk_queue A :=
  mk_queue (umem_props q) (ring_mask q) (nentries q) (prod_head q) v
           (consumer q) (ring_desc q) (invalid_descs q).

Definition set_consumer (q : xsk_queue A) (v : Z) : xsk_queue A :=
  mk_queue (umem_props q) (ring_mask q) (nentries q) (prod_head q)
           (producer q) v (ring_desc q) (invalid_descs q).

Definition set_invalid_descs (q : xsk_queue A) (v : Z) : xsk_queue A :=
  mk_queue (umem_props q) (ring_mask q) (nentries q) (prod_head q)
           (producer q) (consumer q) (ring_desc q) v.

Definition set_ring_desc (q : xsk_queue A) (l : list A) : xsk_queue A :=
  mk_queue (umem_props q) (ring_mask q) (nentries q) (prod_head q)
           (producer q) (consumer q) l (invalid_descs q).

Definition set_umem_props (q : xsk_queue A) (p : option xdp_umem_props)
  : xsk_queue A :=
  mk_queue p (ring_mask q) (nentries q) (prod_head q)
           (producer q) (consumer q) (ring_desc q) (invalid_descs q).

(** The slot of position [i]: ring->desc[i & ring_mask]. *)
Definition slot_index (q : xsk_queue A) (i : Z) : nat :=
  Z.to_nat (Z.land i (ring_mask q)).

Definition slot_at (q : xsk_queue A) (i : Z) : A :=
  ring_desc q !!! slot_index q i.

Definition write_slot (q : xsk_queue A) (i : Z) (x : A) : xsk_queue A :=
  set_ring_desc q (<[slot_index q i := x]> (ring_desc q)).

(** Modelled from the spec: xskq_nb_avail of xsk_queue.h, the number of
    published entries the consumer has not taken, [producer - consumer] in
    unsigned wrap-around arithmetic. *)
Definition xskq_nb_avail (q : xsk_queue A) : Z :=
  u32 (producer q - consumer q).

(** Modelled from the spec: xskq_nb_free of xsk_queue.h, the free slots as
    the producer sees them: capacity minus what lies between the consumer
    and the producer's private position. *)
Definition xskq_nb_free (q : xsk_queue A) : Z :=
  nentries q - u32 (prod_head q - consumer q).

(** Modelled from the spec: the consumer's peek of xsk_queue.h with
    descriptor validation.  Entries that fail [valid] are counted in
    [invalid_descs] and skipped (treated as consumed); the first valid
    entry is returned without advancing past it. *)
Fixpoint xskq_validate (valid : xsk_queue A → A → bool) (n : nat)
    (q : xsk_queue A) : option A * xsk_queue A :=
  match n with
  | O => (None, q)
  | S n' =>
      let x := slot_at q (consumer q) in
      if valid q x then (Some x, q)
      else xskq_validate valid n'
             (set_invalid_descs (set_consumer q (u32 (consumer q + 1)))
                                (invalid_descs q + 1))
  end.

Definition xskq_peek (valid : xsk_queue A → A → bool) (q : xsk_queue A)
  : option A * xsk_queue A :=
  xskq_validate valid (Z.to_nat (xskq_nb_avail q)) q.

(** Modelled from the spec: discard of xsk_queue.h, "consume [one] peeked
    slot by advancing the consumer counter". *)
Definition xskq_discard (q : xsk_queue A) : xsk_queue A :=
  set_consumer q (u32 (consumer q + 1)).

(** Modelled from the spec: xskq_create of xsk_queue.h, an empty ring of
    [entries] zeroed slots with mask [entries - 1]; no props are bound.
    [alloc_ok] says whether the kernel found the memory; NULL otherwise. *)
Definition xskq_create (alloc_ok : bool) (entries : Z) : option (xsk_queue A) :=
  if alloc_ok then
    Some (mk_queue None (entries - 1) entries 0 0 0
                   (replicate (Z.to_nat entries) inhabitant) 0)
  else None.

(** Modelled from the spec: xskq_set_umem of xsk_queue.h, binding the
    umem's props to a ring; a NULL ring is left alone. *)
Definition xskq_set_umem (q : option (xsk_queue A)) (p : xdp_umem_props)
  : option (xsk_queue A) :=
  (λ q, set_umem_props q (Some p)) <$> q.

(** The entries between the consumer and the published producer. *)
Definition ring_contents (q : xsk_queue A) : list A :=
  (λ i : nat, slot_at q (consumer q + Z.of_nat i))
    <$> seq 0 (Z.to_nat (xskq_nb_avail q)).
End ring.
End Ring.
Import Ring.

(** Modelled from the spec: xskq_is_valid_id of xsk_queue.h.  Fill and
    completion rings "perform only the index bound check", and only once
    props are bound to the ring. *)
Definition xskq_is_valid_id (q : xsk_queue Z) (id : Z) : bool :=
  match umem_props q with
  | None => true
  | Some p => id <? p_nframes p
  end.

(** Modelled from the spec: xskq_is_valid_desc of xsk_queue.h, "desc.index <
    num_frames and desc.offset + desc.length <= frame_size" when props are
    bound. *)
Definition xskq_is_valid_desc (q : xsk_queue xdp_desc) (d : xdp_desc) : bool :=
  match umem_props q with
  | None => true
  | Some p => (d_idx d <? p_nframes p) && (d_offset d + d_len d <=? p_frame_size p)
  end.

Definition xskq_peek_id (q : xsk_queue Z) : option Z * xsk_queue Z :=
  xskq_peek xskq_is_valid_id q.

Definition xskq_discard_id (q : xsk_queue Z) : xsk_queue Z := xskq_discard q.

Definition xskq_peek_desc (q : xsk_queue xdp_desc)
  : option xdp_desc * xsk_queue xdp_desc :=
  xskq_peek xskq_is_valid_desc q.

Definition xskq_discard_desc (q : xsk_queue xdp_desc) : xsk_queue xdp_desc :=
  xskq_discard q.

(** Modelled from the spec: xskq_reserve_id of xsk_queue.h, "reserve
    (without publishing) one slot": fails with nospace unless a slot is
    free, else moves the private producer position. *)
Definition xskq_reserve_id (q : xsk_queue Z) : Z * xsk_queue Z :=
  if xskq_nb_free q <? 1 then (- ENOSPC, q)
  else (0, set_prod_head q (u32 (prod_head q + 1))).

(** Modelled from the spec: xskq_produce_id of xsk_queue.h, writing the
    index into the slot at the published producer position and publishing
    it.  The only failure the specification knows is lack of capacity (the
    published ring is full). *)
Definition xskq_produce_id (q : xsk_queue Z) (id : Z) : Z * xsk_queue Z :=
  if nentries q <=? xskq_nb_avail q then (- ENOSPC, q)
  else (0, set_producer (write_slot q (producer q) id) (u32 (producer q + 1))).

(** Modelled from the spec: xskq_produce_batch_desc of xsk_queue.h, "produce
    a descriptor {index, len, headroom} onto the rx ring; if the rx ring is
    full, the operation fails with nospace".  The descriptor is written at
    the private producer position; publishing is left to the flush. *)
Definition xskq_produce_batch_desc (q : xsk_queue xdp_desc)
    (id len offset : Z) : Z * xsk_queue xdp_desc :=
  if xskq_nb_free q <? 1 then (- ENOSPC, q)
  else (0, set_prod_head (write_slot q (prod_head q) (mk_desc id len offset))
                         (u32 (prod_head q + 1))).

(** Modelled from the spec: xskq_produce_flush_desc of xsk_queue.h, the
    "publish of the rx producer counter". *)
Definition xskq_produce_flush_desc (q : xsk_queue xdp_desc)
  : xsk_queue xdp_desc :=
  set_producer q (prod_head q).

(** ** Kernel objects *)

Record net_device := mk_dev {
  dev_flags : Z;
  dev_mtu : Z;
  num_rx_queues : Z;
  dev_refcnt : Z
}.

Record xdp_umem := mk_umem {
  fq : option (xsk_queue Z);
  cq : option (xsk_queue Z);
  frame_size : Z;
  frame_headroom : Z;
  nframes : Z;
  umem_addr : Z;
  props : xdp_umem_props;
  users : Z
}.

(** struct xdp_sock, with the fields of its embedded struct sock that the
    socket layer reads: family, reference count and the SOCK_DEAD flag. *)
Record xdp_sock := mk_xs {
  sk_family : Z;
  sk_refcnt : Z;
  sk_dead : bool;
  umem : option Z;
  dev : option Z;
  queue_id : Z;
  rx : option (xsk_queue xdp_desc);
  tx : option (xsk_queue xdp_desc);
  rx_dropped : Z
}.

(** struct socket: only its [sk] pointer matters here. *)
Record socket := mk_socket { sock_sk : option Z }.

(** What a file descriptor designates. *)
Inductive file :=
| FileSocket (sock : Z)
| FileOther.

Record xdp_buff := mk_buff {
  xb_data : list Z;
  rxq_dev : Z;
  rxq_queue_index : Z
}.

Record sk_buff := mk_skb {
  skb_sk : Z;
  skb_data : list Z;
  skb_dev : Z;
  destructor_arg : Z
}.

(** Calls that leave the socket layer, in the order they are made. *)
Inductive event :=
| EvSynchronizeNet
| EvDevPut (ifindex : Z)
| EvReturnBuff
| EvDataReady (sk : Z)
| EvWriteSpace (sk : Z)
| EvWarn
| EvSockWfree (sk : Z)
| EvKfreeSkb (sk : Z)
| EvXmit (skb : sk_buff) (queue : Z)
| EvSockOrphan (sk : Z)
| EvSkFree (sk : Z)
| EvUmemFree (u : Z)
| EvDevHold (ifindex : Z)
| EvSockfdLookup (fd : Z)
| EvSockfdPut (sock : Z).

Record kernel := mk_kernel {
  k_devs : gmap Z net_device;
  k_umems : gmap Z xdp_umem;
  k_socks : gmap Z xdp_sock;
  k_sockets : gmap Z socket;
  k_fds : gmap Z file;
  k_mem : gmap Z Z;
  k_inuse : Z;
  k_warned : bool;
  k_trace : list event
}.

Definition set_fq (u : xdp_umem) (q : option (xsk_queue Z)) : xdp_umem :=
  mk_umem q (cq u) (frame_size u) (frame_headroom u) (nframes u)
          (umem_addr u) (props u) (users u).

Definition set_cq (u : xdp_umem) (q : option (xsk_queue Z)) : xdp_umem :=
  mk_umem (fq u) q (frame_size u) (frame_headroom u) (nframes u)
          (umem_addr u) (props u) (users u).

Definition set_users (u : xdp_umem) (n : Z) : xdp_umem :=
  mk_umem (fq u) (cq u) (frame_size u) (frame_headroom u) (nframes u)
          (umem_addr u) (props u) n.

Definition set_sk_refcnt (s : xdp_sock) (n : Z) : xdp_sock :=
  mk_xs (sk_family s) n (sk_dead s) (umem s) (dev s) (queue_id s)
        (rx s) (tx s) (rx_dropped s).

Definition set_sk_dead (s : xdp_sock) (b : bool) : xdp_sock :=
  mk_xs (sk_family s) (sk_refcnt s) b (umem s) (dev s) (queue_id s)
        (rx s) (tx s) (rx_dropped s).

Definition set_umem (s : xdp_sock) (u : option Z) : xdp_sock :=
  mk_xs (sk_family s) (sk_refcnt s) (sk_dead s) u (dev s) (queue_id s)
        (rx s) (tx s) (rx_dropped s).

Definition set_dev (s : xdp_sock) (d : option Z) : xdp_sock :=
  mk_xs (sk_family s) (sk_refcnt s) (sk_dead s) (umem s) d (queue_id s)
        (rx s) (tx s) (rx_dropped s).

Definition set_queue_id (s : xdp_sock) (q : Z) : xdp_sock :=
  mk_xs (sk_family s) (sk_refcnt s) (sk_dead s) (umem s) (dev s) q
        (rx s) (tx s) (rx_dropped s).

Definition set_rx (s : xdp_sock) (q : option (xsk_queue xdp_desc)) : xdp_sock :=
  mk_xs (sk_family s) (sk_refcnt s) (sk_dead s) (umem s) (dev s) (queue_id s)
        q (tx s) (rx_dropped s).

Definition set_tx (s : xdp_sock) (q : option (xsk_queue xdp_desc)) : xdp_sock :=
  mk_xs (sk_family s) (sk_refcnt s) (sk_dead s) (umem s) (dev s) (queue_id s)
        (rx s) q (rx_dropped s).

Definition set_rx_dropped (s : xdp_sock) (n : Z) : xdp_sock :=
  mk_xs (sk_family s) (sk_refcnt s) (sk_dead s) (umem s) (dev s) (queue_id s)
        (rx s) (tx s) n.

Definition with_devs (k : kernel) (m : gmap Z net_device) : kernel :=
  mk_kernel m (k_umems k) (k_socks k) (k_sockets k) (k_fds k) (k_mem k)
            (k_inuse k) (k_warned k) (k_trace k).

Definition with_umems (k : kernel) (m : gmap Z xdp_umem) : kernel :=
  mk_kernel (k_devs k) m (k_socks k) (k_sockets k) (k_fds k) (k_mem k)
            (k_inuse k) (k_warned k) (k_trace k).

Definition with_socks (k : kernel) (m : gmap Z xdp_sock) : kernel :=
  mk_kernel (k_devs k) (k_umems k) m (k_sockets k) (k_fds k) (k_mem k)
            (k_inuse k) (k_warned k) (k_trace k).

Definition with_sockets (k : kernel) (m : gmap Z socket) : kernel :=
  mk_kernel (k_devs k) (k_umems k) (k_socks k) m (k_fds k) (k_mem k)
            (k_inuse k) (k_warned k) (k_trace k).

Definition with_mem (k : kernel) (m : gmap Z Z) : kernel :=
  mk_kernel (k_devs k) (k_umems k) (k_socks k) (k_sockets k) (k_fds k) m
            (k_inuse k) (k_warned k) (k_trace k).

Definition with_inuse (k : kernel) (n : Z) : kernel :=
  mk_kernel (k_devs k) (k_umems k) (k_socks k) (k_sockets k) (k_fds k)
            (k_mem k) n (k_warned k) (k_trace k).

Definition with_warned (k : kernel) (b : bool) : kernel :=
  mk_kernel (k_devs k) (k_umems k) (k_socks k) (k_sockets k) (k_fds k)
            (k_mem k) (k_inuse k) b (k_trace k).

(** An external call is appended to the trace. *)
Definition emit (k : kernel) (e : event) : kernel :=
  mk_kernel (k_devs k) (k_umems k) (k_socks k) (k_sockets k) (k_fds k)
            (k_mem k) (k_inuse k) (k_warned k) (k_trace k ++ [e]).

Definition put_sock (k : kernel) (p : Z) (s : xdp_sock) : kernel :=
  with_socks k (<[p := s]> (k_socks k)).

Definition put_umem (k : kernel) (p : Z) (u : xdp_umem) : kernel :=
  with_umems k (<[p := u]> (k_umems k)).

(** memcpy into the flat kernel memory, byte by byte from [dst] upwards. *)
Fixpoint memcpy (dst : Z) (src : list Z) (m : gmap Z Z) : gmap Z Z :=
  match src with
  | [] => m
  | b :: bs => memcpy (dst + 1) bs (<[dst := b]> m)
  end.

(** Reading [n] bytes from [src] upwards; unwritten memory reads as 0. *)
Definition read_bytes (m : gmap Z Z) (src : Z) (n : Z) : list Z :=
  (λ i : nat, default 0 (m !! (src + Z.of_nat i))) <$> seq 0 (Z.to_nat n).

(** ** Umem helpers *)

(** Modelled from the spec: xdp_umem_get_data of xdp_umem.h,
    "data(i) = base + i * frame_size". *)
Definition xdp_umem_get_data (u : xdp_umem) (idx : Z) : Z :=
  umem_addr u + idx * frame_size u.

(** Modelled from the spec: xdp_umem_get_data_with_headroom of xdp_umem.h,
    "data_with_headroom(i) = data(i) + headroom". *)
Definition xdp_umem_get_data_with_headroom (u : xdp_umem) (idx : Z) : Z :=
  xdp_umem_get_data u idx + frame_headroom u.

(** Modelled from the spec: xdp_umem_validate_queues of xdp_umem.h, "does
    this umem have both a fill ring and a completion ring?". *)
Definition xdp_umem_validate_queues (u : xdp_umem) : bool :=
  bool_decide (is_Some (fq u)) && bool_decide (is_Some (cq u)).

(** Modelled from the spec: xdp_get_umem of xdp_umem.h, one more reference
    on a shared umem. *)
Definition xdp_get_umem (k : kernel) (p : Z) : option kernel :=
  u ← k_umems k !! p;
  Some (put_umem k p (set_users u (users u + 1))).

(** Modelled from the spec: xdp_put_umem of xdp_umem.h, dropping one
    reference; the umem is "destroyed when its last socket reference is
    released".  A NULL umem is ignored. *)
Definition xdp_put_umem (k : kernel) (p : option Z) : option kernel :=
  match p with
  | None => Some k
  | Some p =>
      u ← k_umems k !! p;
      if users u - 1 =? 0
      then Some (emit (with_umems k (delete p (k_umems k))) (EvUmemFree p))
      else Some (put_umem k p (set_users u (users u - 1)))
  end.

(** ** RX path *)

Definition __xsk_rcv (k : kernel) (xs : Z) (xdp : xdp_buff)
  : option (Z * kernel) :=
  s ← k_socks k !! xs;
  let len := u32 (Z.of_nat (length (xb_data xdp))) in
  if bool_decide (dev s ≠ Some (rxq_dev xdp))
     || bool_decide (queue_id s ≠ rxq_queue_index xdp)
  then Some (- EINVAL, k)
  else
    up ← umem s;
    u ← k_umems k !! up;
    f ← fq u;
    let '(id, f1) := xskq_peek_id f in
    let k1 := put_umem k up (set_fq u (Some f1)) in
    match id with
    | None => Some (- ENOSPC, k1)
    | Some id =>
        let buffer := xdp_umem_get_data_with_headroom u id in
        let k2 := with_mem k1 (memcpy buffer (take (Z.to_nat len) (xb_data xdp))
                                      (k_mem k1)) in
        r ← rx s;
        let '(err, r1) := xskq_produce_batch_desc r id len (frame_headroom u) in
        let k3 := put_sock k2 xs (set_rx s (Some r1)) in
        if err =? 0
        then Some (err, put_umem k3 up (set_fq u (Some (xskq_discard_id f1))))
        else Some (err, k3)
    end.

Definition xsk_rcv (k : kernel) (xs : Z) (xdp : xdp_buff)
  : option (Z * kernel) :=
  '(err, k1) ← __xsk_rcv k xs xdp;
  if err =? 0 then Some (err, emit k1 EvReturnBuff)
  else
    s ← k_socks k1 !! xs;
    Some (err, put_sock k1 xs (set_rx_dropped s (u64 (rx_dropped s + 1)))).

Definition xsk_flush (k : kernel) (xs : Z) : option kernel :=
  s ← k_socks k !! xs;
  r ← rx s;
  Some (emit (put_sock k xs (set_rx s (Some (xskq_produce_flush_desc r))))
             (EvDataReady xs)).

Definition xsk_generic_rcv (k : kernel) (xs : Z) (xdp : xdp_buff)
  : option (Z * kernel) :=
  '(err, k1) ← __xsk_rcv k xs xdp;
  if err =? 0 then k2 ← xsk_flush k1 xs; Some (err, k2)
  else
    s ← k_socks k1 !! xs;
    Some (err, put_sock k1 xs (set_rx_dropped s (u64 (rx_dropped s + 1)))).

(** ** TX path *)

(** WARN_ON_ONCE(cond): the diagnostic is printed the first time the
    condition holds; a static flag remembers that it has been. *)
Definition WARN_ON_ONCE (k : kernel) (cond : bool) : kernel :=
  if cond && negb (k_warned k) then emit (with_warned k true) EvWarn else k.

Definition xsk_destruct_skb (k : kernel) (skb : sk_buff) : option kernel :=
  let id := u32 (destructor_arg skb) in
  s ← k_socks k !! skb_sk skb;
  up ← umem s;
  u ← k_umems k !! up;
  c ← cq u;
  let '(err, c1) := xskq_produce_id c id in
  let k1 := put_umem k up (set_cq u (Some c1)) in
  let k2 := WARN_ON_ONCE k1 (negb (err =? 0)) in
  Some (emit k2 (EvSockWfree (skb_sk skb))).

(** What the rest of the kernel answers in one iteration of the transmit
    loop: whether sock_alloc_send_skb finds a buffer, what skb_store_bits
    and dev_direct_xmit return, and whether the buffer has already been
    released (its destructor run) when dev_direct_xmit returns. *)
Record tx_outcome := mk_outcome {
  alloc_ok : bool;
  store_err : Z;
  xmit_ret : Z;
  xmit_frees : bool
}.

(** The code after the [out] label of xsk_generic_xmit. *)
Definition xmit_out (sk : Z) (err : Z) (sent_frame : bool) (k : kernel)
  : option (Z * kernel) :=
  Some (err, if sent_frame then emit k (EvWriteSpace sk) else k).

(** The while loop of xsk_generic_xmit; [max_batch] is the C variable, and
    iteration number [TX_BATCH_SIZE - max_batch] asks [env] for the
    device's answers. *)
Fixpoint xmit_loop (env : nat → tx_outcome) (sk : Z) (max_batch : nat)
    (err : Z) (sent_frame : bool) (k : kernel) : option (Z * kernel) :=
  s ← k_socks k !! sk;
  t ← tx s;
  let '(od, t1) := xskq_peek_desc t in
  let k1 := put_sock k sk (set_tx s (Some t1)) in
  match od with
  | None => xmit_out sk err sent_frame k1
  | Some desc =>
      match max_batch with
      | O => xmit_out sk (- EAGAIN) sent_frame k1
      | S mb =>
          up ← umem s;
          u ← k_umems k1 !! up;
          c ← cq u;
          let '(rerr, c1) := xskq_reserve_id c in
          let k2 := put_umem k1 up (set_cq u (Some c1)) in
          if negb (rerr =? 0) then xmit_out sk (- EAGAIN) sent_frame k2
          else
            let len := d_len desc in
            d ← dev s;
            nd ← k_devs k2 !! d;
            if len >? dev_mtu nd then xmit_out sk (- EMSGSIZE) sent_frame k2
            else
              let o := env (TX_BATCH_SIZE - max_batch)%nat in
              if negb (alloc_ok o) then xmit_out sk (- EAGAIN) sent_frame k2
              else
                let id := d_idx desc in
                let buffer := xdp_umem_get_data u id + d_offset desc in
                if negb (store_err o =? 0)
                then xmit_out sk (store_err o) sent_frame
                              (emit k2 (EvKfreeSkb sk))
                else
                  let skb := mk_skb sk (read_bytes (k_mem k2) buffer len) d id in
                  let k3 := emit k2 (EvXmit skb (queue_id s)) in
                  k4 ← (if xmit_frees o then xsk_destruct_skb k3 skb
                        else Some k3);
                  let err := xmit_ret o in
                  if (err =? NET_XMIT_DROP) || (err =? NETDEV_TX_BUSY)
                  then xmit_out sk (- EAGAIN) sent_frame k4
                  else
                    s' ← k_socks k4 !! sk;
                    t' ← tx s';
                    xmit_loop env sk mb err true
                      (put_sock k4 sk (set_tx s' (Some (xskq_discard_desc t'))))
      end
  end.

Definition xsk_generic_xmit (env : nat → tx_outcome) (k : kernel) (sk : Z)
    (msg_flags : Z) : option (Z * kernel) :=
  let need_wait := Z.land msg_flags MSG_DONTWAIT =? 0 in
  s ← k_socks k !! sk;
  if bool_decide (tx s = None) then Some (- ENOBUFS, k)
  else if need_wait then Some (- EOPNOTSUPP, k)
  else xmit_loop env sk TX_BATCH_SIZE 0 false k.

Definition xsk_sendmsg (env : nat → tx_outcome) (k : kernel) (sock : Z)
    (msg_flags : Z) : option (Z * kernel) :=
  so ← k_sockets k !! sock;
  sk ← sock_sk so;
  s ← k_socks k !! sk;
  match dev s with
  | None => Some (- ENXIO, k)
  | Some d =>
      nd ← k_devs k !! d;
      if Z.land (dev_flags nd) IFF_UP =? 0 then Some (- ENETDOWN, k)
      else xsk_generic_xmit env k sk msg_flags
  end.

(** ** Ring creation and release *)

Definition xsk_init_queue {A} `{Inhabited A} (kalloc_ok : bool) (entries : Z)
    (queue : option (xsk_queue A)) : Z * option (xsk_queue A) :=
  if (entries =? 0) || bool_decide (is_Some queue)
     || negb (is_power_of_2 entries)
  then (- EINVAL, queue)
  else
    match xskq_create kalloc_ok entries with
    | None => (- ENOMEM, queue)
    | Some q => (0, Some q)
    end.

(** dev_get_by_index() and dev_put() of the device layer: a lookup that
    takes a reference, and the release of one. *)
Definition dev_get_by_index (k : kernel) (ifindex : Z) : option Z * kernel :=
  match k_devs k !! ifindex with
  | None => (None, k)
  | Some nd =>
      (Some ifindex,
       emit (with_devs k (<[ifindex := mk_dev (dev_flags nd) (dev_mtu nd)
                               (num_rx_queues nd) (dev_refcnt nd + 1)]>
                            (k_devs k)))
            (EvDevHold ifindex))
  end.

Definition dev_put (k : kernel) (d : Z) : option kernel :=
  nd ← k_devs k !! d;
  Some (emit (with_devs k (<[d := mk_dev (dev_flags nd) (dev_mtu nd)
                               (num_rx_queues nd) (dev_refcnt nd - 1)]>
                            (k_devs k)))
             (EvDevPut d)).

Definition __xsk_release (k : kernel) (xs : Z) : option kernel :=
  let k1 := emit k EvSynchronizeNet in
  s ← k_socks k1 !! xs;
  d ← dev s;
  dev_put k1 d.

Definition xsk_destruct (k : kernel) (sk : Z) : option kernel :=
  s ← k_socks k !! sk;
  if negb (sk_dead s) then Some k
  else
    let k1 := put_sock k sk (set_tx (set_rx s None) None) in
    xdp_put_umem k1 (umem s).

(** sock_put() of the socket layer: drop a reference; the last one runs the
    sock's destructor, xsk_destruct, and frees the sock. *)
Definition sock_put (k : kernel) (sk : Z) : option kernel :=
  s ← k_socks k !! sk;
  if sk_refcnt s - 1 =? 0 then
    k1 ← xsk_destruct k sk;
    Some (emit (with_socks k1 (delete sk (k_socks k1))) (EvSkFree sk))
  else Some (put_sock k sk (set_sk_refcnt s (sk_refcnt s - 1))).

Definition xsk_release (k : kernel) (sock : Z) : option (Z * kernel) :=
  so ← k_sockets k !! sock;
  match sock_sk so with
  | None => Some (0, k)
  | Some sk =>
      let k1 := with_inuse k (k_inuse k - 1) in
      s ← k_socks k1 !! sk;
      k2 ← (if bool_decide (is_Some (dev s)) then
              k' ← __xsk_release k1 sk;
              s' ← k_socks k' !! sk;
              Some (put_sock k' sk (set_dev s' None))
            else Some k1);
      s2 ← k_socks k2 !! sk;
      let k3 := emit (put_sock k2 sk (set_sk_dead s2 true)) (EvSockOrphan sk) in
      let k4 := with_sockets k3 (<[sock := mk_socket None]> (k_sockets k3)) in
      k5 ← sock_put k4 sk;
      Some (0, k5)
  end.

(** ** Bind *)

Record sockaddr_xdp := mk_sxdp {
  sxdp_family : Z;
  sxdp_flags : Z;
  sxdp_ifindex : Z;
  sxdp_queue_id : Z;
  sxdp_shared_umem_fd : Z
}.

(** sockfd_lookup() of the socket layer: the struct socket behind a
    descriptor, NULL when the descriptor is closed or not a socket. *)
Definition sockfd_lookup (k : kernel) (fd : Z) : option Z * kernel :=
  (match k_fds k !! fd with
   | Some (FileSocket so) => Some so
   | _ => None
   end, emit k (EvSockfdLookup fd)).

Definition sockfd_put (k : kernel) (so : Z) : kernel :=
  emit k (EvSockfdPut so).

(** Returns the error (ERR_PTR) on the left, the socket on the right. *)
Definition xsk_lookup_xsk_from_fd (k : kernel) (fd : Z)
  : option ((Z + Z) * kernel) :=
  let '(sock, k1) := sockfd_lookup k fd in
  match sock with
  | None => Some (inl (- ENOTSOCK), k1)
  | Some so =>
      sock ← k_sockets k1 !! so;
      sk ← sock_sk sock;
      s ← k_socks k1 !! sk;
      if bool_decide (sk_family s ≠ PF_XDP)
      then Some (inl (- ENOPROTOOPT), sockfd_put k1 so)
      else Some (inr so, k1)
  end.

(** The code from the [out_unlock] label of xsk_bind on: the reference on
    [dev] is given back when the bind failed. *)
Definition bind_out_unlock (k : kernel) (d : Z) (err : Z)
  : option (Z * kernel) :=
  if negb (err =? 0) then k1 ← dev_put k d; Some (err, k1)
  else Some (err, k).

(** The last part of xsk_bind, from the "Rebind?" comment to the end; the
    socket's umem pointer has been settled by then. *)
Definition bind_attach (k : kernel) (sk : Z) (dev_curr : option Z) (d : Z)
    (sxdp : sockaddr_xdp) (old_umem : option Z) : option (Z * kernel) :=
  s ← k_socks k !! sk;
  k1 ← (if bool_decide (is_Some dev_curr)
           && (bool_decide (dev_curr ≠ Some d)
               || bool_decide (queue_id s ≠ sxdp_queue_id sxdp))
        then
          k' ← __xsk_release k sk;
          if bool_decide (is_Some old_umem) then xdp_put_umem k' old_umem
          else Some k'
        else Some k);
  s1 ← k_socks k1 !! sk;
  let s2 := set_queue_id (set_dev s1 (Some d)) (sxdp_queue_id sxdp) in
  up ← umem s2;
  u ← k_umems k1 !! up;
  let s3 := set_rx s2 (xskq_set_umem (rx s2) (props u)) in
  let s4 := set_tx s3 (xskq_set_umem (tx s3) (props u)) in
  bind_out_unlock (put_sock k1 sk s4) d 0.

Definition xsk_bind (k : kernel) (sock : Z) (sxdp : sockaddr_xdp)
    (addr_len : Z) : option (Z * kernel) :=
  so ← k_sockets k !! sock;
  if u64 addr_len <? sizeof_sockaddr_xdp then Some (- EINVAL, k)
  else if bool_decide (sxdp_family sxdp ≠ AF_XDP) then Some (- EINVAL, k)
  else
    sk ← sock_sk so;
    s ← k_socks k !! sk;
    let dev_curr := dev s in
    let '(od, k1) := dev_get_by_index k (sxdp_ifindex sxdp) in
    match od with
    | None => Some (- ENODEV, k1)
    | Some d =>
        nd ← k_devs k1 !! d;
        if bool_decide (rx s = None) && bool_decide (tx s = None)
        then bind_out_unlock k1 d (- EINVAL)
        else if num_rx_queues nd <=? sxdp_queue_id sxdp
        then bind_out_unlock k1 d (- EINVAL)
        else if negb (Z.land (sxdp_flags sxdp) XDP_SHARED_UMEM =? 0) then
          if bool_decide (is_Some (umem s))
          then bind_out_unlock k1 d (- EINVAL)
          else
            '(r, k2) ← xsk_lookup_xsk_from_fd k1 (sxdp_shared_umem_fd sxdp);
            match r with
            | inl err => bind_out_unlock k2 d err
            | inr so2 =>
                sock2 ← k_sockets k2 !! so2;
                sk2 ← sock_sk sock2;
                umem_xs ← k_socks k2 !! sk2;
                match umem umem_xs with
                | None => bind_out_unlock (sockfd_put k2 so2) d (- EBADF)
                | Some up =>
                    if bool_decide (dev umem_xs ≠ Some d)
                       || bool_decide (queue_id umem_xs ≠ sxdp_queue_id sxdp)
                    then bind_out_unlock (sockfd_put k2 so2) d (- EINVAL)
                    else
                      k3 ← xdp_get_umem k2 up;
                      s' ← k_socks k3 !! sk;
                      let old_umem := umem s' in
                      let k4 := put_sock k3 sk (set_umem s' (Some up)) in
                      bind_attach (sockfd_put k4 so2) sk dev_curr d sxdp old_umem
                end
            end
        else
          match umem s with
          | None => bind_out_unlock k1 d (- EINVAL)
          | Some up =>
              u ← k_umems k1 !! up;
              if negb (xdp_umem_validate_queues u)
              then bind_out_unlock k1 d (- EINVAL)
              else
                let u1 := set_fq u (xskq_set_umem (fq u) (props u)) in
                let u2 := set_cq u1 (xskq_set_umem (cq u1) (props u1)) in
                bind_attach (put_umem k1 up u2) sk dev_curr d sxdp None
          end
    end.

(** ** Socket options *)

Inductive optname :=
| XDP_RX_RING
| XDP_TX_RING
| XDP_UMEM_REG
| XDP_UMEM_FILL_RING
| XDP_UMEM_COMPLETION_RING
| XDP_OTHER (n : Z).

Global Instance optname_eq_dec : EqDecision optname.
Proof. solve_decision. Defined.

Record xdp_umem_reg_t := mk_umem_reg {
  mr_addr : Z;
  mr_len : Z;
  mr_frame_size : Z;
  mr_frame_headroom : Z
}.

(** The user memory behind [optval] as copy_from_user() reads it: as an int
    and as a struct xdp_umem_reg; [None] where the copy faults. *)
Record user_buf := mk_user_buf {
  ub_int : option Z;
  ub_umem_reg : option xdp_umem_reg_t
}.

(** What the machine decides: page size, the ceiling on the number of
    frames, and whether allocating a ring and pinning pages succeed. *)
Record sys_env := mk_sys_env {
  page_size : Z;
  max_frames : Z;
  kalloc_ok : bool;
  pin_ok : bool
}.

(** Modelled from the spec: xdp_umem_reg of xdp_umem.c, the registration
    checks: "base_addr is page-aligned, len is a positive multiple of
    frame_size, frame_size is a power of two and at least large enough to
    hold headroom, headroom < frame_size, and num_frames = len / frame_size
    is within an implementation-chosen ceiling"; invalid on bad parameters,
    nomem when the pages cannot be pinned.  The new umem holds one
    reference and has no rings. *)
Definition xdp_umem_reg (e : sys_env) (mr : xdp_umem_reg_t) : Z + xdp_umem :=
  let nf := mr_len mr / mr_frame_size mr in
  if negb (mr_addr mr mod page_size e =? 0)
     || negb (is_power_of_2 (mr_frame_size mr))
     || (mr_len mr <=? 0)
     || negb (mr_len mr mod mr_frame_size mr =? 0)
     || (mr_frame_size mr <=? mr_frame_headroom mr)
     || (max_frames e <? nf)
  then inl (- EINVAL)
  else if negb (pin_ok e) then inl (- ENOMEM)
  else inr (mk_umem None None (mr_frame_size mr) (mr_frame_headroom mr) nf
                    (mr_addr mr) (mk_props (mr_frame_size mr) nf) 1).

Definition xsk_setsockopt (e : sys_env) (k : kernel) (sock : Z) (level : Z)
    (name : optname) (optval : user_buf) (optlen : Z) : option (Z * kernel) :=
  so ← k_sockets k !! sock;
  if bool_decide (level ≠ SOL_XDP) then Some (- ENOPROTOOPT, k)
  else
    match name with
    | XDP_RX_RING | XDP_TX_RING =>
        if optlen <? 4 then Some (- EINVAL, k)
        else
          match ub_int optval with
          | None => Some (- EFAULT, k)
          | Some entries =>
              sk ← sock_sk so;
              s ← k_socks k !! sk;
              if bool_decide (name = XDP_TX_RING) then
                let '(err, q) := xsk_init_queue (kalloc_ok e) (u32 entries) (tx s) in
                Some (err, put_sock k sk (set_tx s q))
              else
                let '(err, q) := xsk_init_queue (kalloc_ok e) (u32 entries) (rx s) in
                Some (err, put_sock k sk (set_rx s q))
          end
    | XDP_UMEM_REG =>
        sk ← sock_sk so;
        s ← k_socks k !! sk;
        if bool_decide (is_Some (umem s)) then Some (- EBUSY, k)
        else
          match ub_umem_reg optval with
          | None => Some (- EFAULT, k)
          | Some mr =>
              match xdp_umem_reg e mr with
              | inl err => Some (err, k)
              | inr u =>
                  let up := fresh (dom (k_umems k)) in
                  Some (0, put_sock (put_umem k up u) sk (set_umem s (Some up)))
              end
          end
    | XDP_UMEM_FILL_RING | XDP_UMEM_COMPLETION_RING =>
        sk ← sock_sk so;
        s ← k_socks k !! sk;
        match umem s with
        | None => Some (- EINVAL, k)
        | Some up =>
            match ub_int optval with
            | None => Some (- EFAULT, k)
            | Some entries =>
                u ← k_umems k !! up;
                if bool_decide (name = XDP_UMEM_FILL_RING) then
                  let '(err, q) := xsk_init_queue (kalloc_ok e) (u32 entries) (fq u) in
                  Some (err, put_umem k up (set_fq u q))
                else
                  let '(err, q) := xsk_init_queue (kalloc_ok e) (u32 entries) (cq u) in
                  Some (err, put_umem k up (set_cq u q))
            end
        end
    | XDP_OTHER _ => Some (- ENOPROTOOPT, k)
    end.

(** ** User-side ring helpers (samples/bpf/xdpsock_user.c) *)

(** The string literal [pkt_data], with its terminating NUL. *)
Definition pkt_data : list Z :=
  [60; 253; 254; 158; 127; 113; 236; 177; 215; 152; 58; 192; 8; 0; 69; 0;
   0; 46; 0; 0; 0; 0; 64; 17; 136; 151; 5; 8; 7; 8; 200; 20;
   30; 4; 16; 146; 16; 146; 0; 26; 109; 163; 52; 51; 31; 105; 64; 107;
   84; 89; 182; 20; 45; 17; 68; 191; 175; 217; 190; 170; 0].

Definition sizeof_pkt_data : Z := Z.of_nat (length pkt_data).

Record xdp_rxtx_ring := mk_rxtx_ring {
  ptrs_producer : Z;
  ptrs_consumer : Z;
  rxtx_desc : list xdp_desc
}.

Record xdp_uqueue := mk_uqueue {
  cached_prod : Z;
  cached_cons : Z;
  mask : Z;
  size : Z;
  ring : xdp_rxtx_ring
}.

Definition xq_nb_free (q : xdp_uqueue) (ndescs : Z) : Z * xdp_uqueue :=
  let free_entries := u32 (cached_cons q - cached_prod q) in
  if ndescs <=? free_entries then (free_entries, q)
  else
    let q1 := mk_uqueue (cached_prod q)
                        (u32 (ptrs_consumer (ring q) + size q))
                        (mask q) (size q) (ring q) in
    (u32 (cached_cons q1 - cached_prod q1), q1).

(** The body of the for loop of xq_enq_tx_only, run [n] more times with the
    loop counter at [i].  The slot variable declared in the body is called
    [idx] in the source, like the function's parameter, which it hides. *)
Fixpoint xq_enq_tx_only_loop (n : nat) (i : Z) (uq : xdp_uqueue) : xdp_uqueue :=
  match n with
  | O => uq
  | S n' =>
      let idx := Z.land (cached_prod uq) (mask uq) in
      let d := mk_desc (u32 (idx + i)) (u32 (sizeof_pkt_data - 1)) 0 in
      let r := mk_rxtx_ring (ptrs_producer (ring uq)) (ptrs_consumer (ring uq))
                            (<[Z.to_nat idx := d]> (rxtx_desc (ring uq))) in
      xq_enq_tx_only_loop n' (u32 (i + 1))
        (mk_uqueue (u32 (cached_prod uq + 1)) (cached_cons uq)
                   (mask uq) (size uq) r)
  end.

Definition xq_enq_tx_only (uq : xdp_uqueue) (idx : Z) (ndescs : Z)
  : Z * xdp_uqueue :=
  let '(nfree, uq1) := xq_nb_free uq ndescs in
  if nfree <? ndescs then (- ENOSPC, uq1)
  else
    let uq2 := xq_enq_tx_only_loop (Z.to_nat ndescs) 0 uq1 in
    (0, mk_uqueue (cached_prod uq2) (cached_cons uq2) (mask uq2) (size uq2)
                  (mk_rxtx_ring (cached_prod uq2) (ptrs_consumer (ring uq2))
                                (rxtx_desc (ring uq2)))).

(** ** The scenarios of the specification *)

Module Scenario.

Definition lo : Z := 1.
Definition the_umem : Z := 100.
Definition the_sk : Z := 10.
Definition the_sock : Z := 20.

Definition umem_props8 : xdp_umem_props := mk_props 2048 8.

(** A fill ring of capacity 8 in which user space has published the frame
    indices 0..7. *)
Definition fq8 : xsk_queue Z :=
  mk_queue (Some umem_props8) 7 8 0 8 0 [0; 1; 2; 3; 4; 5; 6; 7] 0.

(** An empty completion ring of capacity 4. *)
Definition cq4 : xsk_queue Z :=
  mk_queue (Some umem_props8) 3 4 0 0 0 [0; 0; 0; 0] 0.

(** An empty rx ring of capacity [n], bound to the umem's props. *)
Definition rx_ring (n : Z) : xsk_queue xdp_desc :=
  mk_queue (Some umem_props8) (n - 1) n 0 0 0
           (replicate (Z.to_nat n) (mk_desc 0 0 0)) 0.

(** A tx ring of capacity 4 in which user space has published [descs]. *)
Definition tx_ring (descs : list xdp_desc) : xsk_queue xdp_desc :=
  mk_queue (Some umem_props8) 3 4 0 (Z.of_nat (length descs)) 0
           (descs ++ replicate (4 - length descs)%nat (mk_desc 0 0 0)) 0.

(** Umem of 8 frames of 2048 bytes, no headroom, with the given rings. *)
Definition umem_with (f c : xsk_queue Z) : xdp_umem :=
  mk_umem (Some f) (Some c) 2048 0 8 65536 umem_props8 1.

Definition umem8 : xdp_umem := umem_with fq8 cq4.

Definition device (mtu : Z) : net_device := mk_dev IFF_UP mtu 1 1.

(** One socket bound to (lo, queue 0) with the given umem and rx and tx
    rings. *)
Definition bound_with (u : xdp_umem) (rxq txq : option (xsk_queue xdp_desc))
    (mtu : Z) : kernel :=
  mk_kernel {[ lo := device mtu ]}
            {[ the_umem := u ]}
            {[ the_sk := mk_xs PF_XDP 1 false (Some the_umem) (Some lo) 0
                              rxq txq 0 ]}
            {[ the_sock := mk_socket (Some the_sk) ]}
            {[ 3 := FileSocket the_sock ]}
            ∅ 1 false [].

Definition bound (rxq txq : option (xsk_queue xdp_desc)) (mtu : Z) : kernel :=
  bound_with umem8 rxq txq mtu.

(** A socket as xsk_create leaves it: no device, no umem, no rings. *)
Definition fresh_xs : xdp_sock := mk_xs PF_XDP 1 false None None 0 None None 0.

Definition created : kernel :=
  mk_kernel {[ lo := device 1500 ]} ∅ {[ the_sk := fresh_xs ]}
            {[ the_sock := mk_socket (Some the_sk) ]}
            {[ 3 := FileSocket the_sock ]}
            ∅ 1 false [].

(** A socket bound to (lo, queue 0) with an rx ring and no tx ring, the
    interface being down. *)
Definition bound_down : kernel :=
  mk_kernel {[ lo := mk_dev 0 1500 1 1 ]}
            {[ the_umem := umem8 ]}
            {[ the_sk := mk_xs PF_XDP 1 false (Some the_umem) (Some lo) 0
                              (Some (rx_ring 8)) None 0 ]}
            {[ the_sock := mk_socket (Some the_sk) ]}
            {[ 3 := FileSocket the_sock ]}
            ∅ 1 false [].

(** A created socket with an rx ring of capacity 8 and no umem, next to a
    socket of another family (AF_INET) behind descriptor 4, and an AF_XDP
    socket with no umem behind descriptor 5. *)
Definition with_foreign : kernel :=
  mk_kernel {[ lo := device 1500 ]} ∅
            (<[ the_sk := mk_xs PF_XDP 1 false None None 0
                                (Some (rx_ring 8)) None 0 ]>
               (<[ 11 := mk_xs 2 1 false None None 0 None None 0 ]>
                  {[ 12 := fresh_xs ]}))
            (<[ the_sock := mk_socket (Some the_sk) ]>
               (<[ 21 := mk_socket (Some 11) ]> {[ 22 := mk_socket (Some 12) ]}))
            (<[ 3 := FileSocket the_sock ]>
               (<[ 4 := FileSocket 21 ]> {[ 5 := FileSocket 22 ]}))
            ∅ 3 false [].

(** The address of a shared-umem bind to (lo, queue 0) through [fd]. *)
Definition shared_addr (ifindex fd : Z) : sockaddr_xdp :=
  mk_sxdp AF_XDP XDP_SHARED_UMEM ifindex 0 fd.

(** A machine with 4096-byte pages that finds memory for rings and pins
    pages. *)
Definition machine : sys_env := mk_sys_env 4096 1048576 true true.

(** An int in user memory. *)
Definition int_at (n : Z) : user_buf := mk_user_buf (Some n) None.

(** E1: rx ring of capacity 8. *)
Definition e1 : kernel := bound (Some (rx_ring 8)) None 1500.

(** E2: rx ring of capacity 2. *)
Definition e2 : kernel := bound (Some (rx_ring 2)) None 1500.

(** E2 after two buffers of 64 bytes: the rx ring is full, the fill ring
    holds 2..7. *)
Definition e2_full : kernel :=
  mk_kernel {[ lo := device 1500 ]}
            {[ the_umem :=
                 mk_umem (Some (mk_queue (Some umem_props8) 7 8 0 8 2
                                         [0; 1; 2; 3; 4; 5; 6; 7] 0))
                         (Some cq4) 2048 0 8 65536 umem_props8 1 ]}
            {[ the_sk := mk_xs PF_XDP 1 false (Some the_umem) (Some lo) 0
                 (Some (mk_queue (Some umem_props8) 1 2 2 0 0
                                 [mk_desc 0 64 0; mk_desc 1 64 0] 0))
                 None 0 ]}
            {[ the_sock := mk_socket (Some the_sk) ]}
            {[ 3 := FileSocket the_sock ]}
            (memcpy 65536 (replicate 64 171)
                    (memcpy (65536 + 2048) (replicate 64 171) ∅))
            1 false [EvReturnBuff; EvReturnBuff].

(** E4: MTU 1500 and the descriptor {0, 2000, 0} on the tx ring. *)
Definition e4 : kernel :=
  bound None (Some (tx_ring [mk_desc 0 2000 0])) 1500.

(** E4 with a 64-byte frame queued before the oversize one. *)
Definition e4_second : kernel :=
  bound None (Some (tx_ring [mk_desc 0 64 0; mk_desc 1 2000 0])) 1500.

(** A transmit buffer of the socket for frame [id]. *)
Definition skb_of (id : Z) : sk_buff := mk_skb the_sk [] lo id.

(** A completion ring of capacity 4 with one slot reserved. *)
Definition cq4_reserved : xsk_queue Z :=
  mk_queue (Some umem_props8) 3 4 1 0 0 [0; 0; 0; 0] 0.

(** A completion ring of capacity 4 that user space has not drained: four
    published entries, nothing reserved. *)
Definition cq4_full : xsk_queue Z :=
  mk_queue (Some umem_props8) 3 4 4 4 0 [0; 1; 2; 3] 0.

(** A buffer of [n] bytes delivered by the hook for (lo, queue 0). *)
Definition buffer (n : nat) : xdp_buff := mk_buff (replicate n 171) lo 0.

(** Delivering the buffers of a list one after the other; the results are
    collected, the state is threaded. *)
Fixpoint deliver (k : kernel) (bufs : list xdp_buff)
  : option (list Z * kernel) :=
  match bufs with
  | [] => Some ([], k)
  | b :: bs =>
      '(err, k1) ← xsk_rcv k the_sk b;
      '(errs, k2) ← deliver k1 bs;
      Some (err :: errs, k2)
  end.

(** A device that takes every frame and releases it at once. *)
Definition good_device : nat → tx_outcome := λ _, mk_outcome true 0 0 true.

Definition fill_ring_of (k : kernel) : option (list Z) :=
  u ← k_umems k !! the_umem; q ← fq u; Some (ring_contents q).

Definition completion_ring_of (k : kernel) : option (list Z) :=
  u ← k_umems k !! the_umem; q ← cq u; Some (ring_contents q).

Definition tx_ring_of (k : kernel) : option (list xdp_desc) :=
  s ← k_socks k !! the_sk; q ← tx s; Some (ring_contents q).

Definition rx_dropped_of (k : kernel) : option Z :=
  rx_dropped <$> k_socks k !! the_sk.

End Scenario.

(** ** Ring invariants used by the statements *)

(** Slots the producer has reserved and not yet published. *)
Definition reserved {A} (q : xsk_queue A) : Z :=
  u32 (prod_head q - producer q).

(** The completion ring is never over-committed: published entries plus
    reservations fit in the ring, and the ring is one a u32 capacity can
    describe. *)
Definition cq_inv {A} (q : xsk_queue A) : Prop :=
  xskq_nb_avail q + reserved q ≤ nentries q ∧ nentries q < 2 ^ 32.

(** ** Observations used by the statements *)

(** The fill ring a socket receives from. *)
Definition sock_fq (k : kernel) (xs : Z) : option (xsk_queue Z) :=
  s ← k_socks k !! xs; up ← umem s; u ← k_umems k !! up; fq u.

(** The completion ring a socket completes to. *)
Definition sock_cq (k : kernel) (xs : Z) : option (xsk_queue Z) :=
  s ← k_socks k !! xs; up ← umem s; u ← k_umems k !! up; cq u.

(** The fill-ring entry a delivery in [k] peeks is still the next entry of
    the fill ring in [k']. *)
Definition fill_entry_kept (k : kernel) (xs : Z) (k' : kernel) : Prop :=
  ∃ f f' id,
    sock_fq k xs = Some f ∧ sock_fq k' xs = Some f' ∧
    (xskq_peek_id f).1 = Some id ∧ xskq_peek_id f' = (Some id, f').

(** A delivery that is "rejected as dropped: rx_dropped increments, no
    bytes are copied into the frame, and the fill-ring index is not
    consumed". *)
Definition rcv_dropped (k : kernel) (xs : Z) (xdp : xdp_buff) : Prop :=
  ∃ err k',
    xsk_rcv k xs xdp = Some (err, k') ∧ err ≠ 0 ∧
    rx_dropped <$> k_socks k' !! xs
      = (λ s, u64 (rx_dropped s + 1)) <$> k_socks k !! xs ∧
    k_mem k' = k_mem k ∧
    fill_entry_kept k xs k'.

(** A ring whose mask is a power of two minus one and whose slot array has
    that power of two entries, as xskq_create and the sample's setup make
    them. *)
Definition pow2_ring (mask : Z) (slots : nat) : Prop :=
  ∃ m, 0 ≤ m ∧ mask = Z.ones m ∧ Z.of_nat slots = 2 ^ m.

(** The four ring-creation options. *)
Definition is_ring_option (name : optname) : bool :=
  match name with
  | XDP_RX_RING | XDP_TX_RING
  | XDP_UMEM_FILL_RING | XDP_UMEM_COMPLETION_RING => true
  | _ => false
  end.

(** A requested capacity that is zero or not a power of two, as the u32
    xsk_init_queue receives it. *)
Definition bad_capacity (entries : Z) : Prop :=
  u32 entries = 0 ∨ is_power_of_2 (u32 entries) = false.

(** The ring a ring-creation option targets is already there. *)
Definition target_ring_created (k : kernel) (s : xdp_sock) (name : optname)
  : Prop :=
  match name with
  | XDP_RX_RING => is_Some (rx s)
  | XDP_TX_RING => is_Some (tx s)
  | XDP_UMEM_FILL_RING =>
      ∃ up u, umem s = Some up ∧ k_umems k !! up = Some u ∧ is_Some (fq u)
  | XDP_UMEM_COMPLETION_RING =>
      ∃ up u, umem s = Some up ∧ k_umems k !! up = Some u ∧ is_Some (cq u)
  | _ => False
  end.

(** Every umem pointer of the socket points at a umem. *)
Definition umem_ptr_ok (k : kernel) (s : xdp_sock) : Prop :=
  ∀ up, umem s = Some up → is_Some (k_umems k !! up).

(** Events that are neither the quiescing barrier nor a device release. *)
Definition teardown_event (e : event) : Prop :=
  e ≠ EvSynchronizeNet ∧ ∀ d, e ≠ EvDevPut d.

(** ** User-side helpers, continued (samples/bpf/xdpsock_user.c) *)

Definition NUM_FRAMES : Z := 131072.
Definition FRAME_SIZE : Z := 2048.
Definition BATCH_SIZE : Z := 16.

(** (int) of a 32-bit value. *)
Definition s32 (x : Z) : Z := (x + 2 ^ 31) mod 2 ^ 32 - 2 ^ 31.

Record xdp_umem_ring := mk_umem_ring {
  uptrs_producer : Z;
  uptrs_consumer : Z;
  umem_desc : list Z
}.

Record xdp_umem_uqueue := mk_umem_uqueue {
  u_cached_prod : Z;
  u_cached_cons : Z;
  u_mask : Z;
  u_size : Z;
  u_ring : xdp_umem_ring
}.

Definition umem_nb_free (q : xdp_umem_uqueue) (nb : Z) : Z * xdp_umem_uqueue :=
  let free_entries := u32 (u_size q - (u_cached_prod q - u_cached_cons q)) in
  if nb <=? free_entries then (free_entries, q)
  else
    let q1 := mk_umem_uqueue (u_cached_prod q) (uptrs_consumer (u_ring q))
                             (u_mask q) (u_size q) (u_ring q) in
    (u32 (u_size q1 - (u_cached_prod q1 - u_cached_cons q1)), q1).

Definition umem_nb_avail (q : xdp_umem_uqueue) (nb : Z) : Z * xdp_umem_uqueue :=
  let entries := u32 (u_cached_prod q - u_cached_cons q) in
  let q1 := if entries =? 0
            then mk_umem_uqueue (uptrs_producer (u_ring q)) (u_cached_cons q)
                                (u_mask q) (u_size q) (u_ring q)
            else q in
  let entries1 := if entries =? 0
                  then u32 (u_cached_prod q1 - u_cached_cons q1)
                  else entries in
  (if nb <? entries1 then nb else entries1, q1).

Definition xq_nb_avail (q : xdp_uqueue) (ndescs : Z) : Z * xdp_uqueue :=
  let entries := u32 (cached_prod q - cached_cons q) in
  let q1 := if entries =? 0
            then mk_uqueue (ptrs_producer (ring q)) (cached_cons q)
                           (mask q) (size q) (ring q)
            else q in
  let entries1 := if entries =? 0
                  then u32 (cached_prod q1 - cached_cons q1)
                  else entries in
  (if ndescs <? entries1 then ndescs else entries1, q1).

(** The for loop shared by umem_fill_to_kernel_ex and umem_fill_to_kernel:
    [n] more rounds with the counter at [i]; [d] is the caller's array, as
    the indices it holds (d[i].idx for the _ex variant).  Reading past the
    caller's array yields an arbitrary value, here the default. *)
Fixpoint umem_fill_loop (n : nat) (i : Z) (d : list Z) (fq : xdp_umem_uqueue)
  : xdp_umem_uqueue :=
  match n with
  | O => fq
  | S n' =>
      let idx := Z.land (u_cached_prod fq) (u_mask fq) in
      let r := mk_umem_ring (uptrs_producer (u_ring fq))
                            (uptrs_consumer (u_ring fq))
                            (<[Z.to_nat idx := d !!! Z.to_nat i]>
                               (umem_desc (u_ring fq))) in
      umem_fill_loop n' (u32 (i + 1)) d
        (mk_umem_uqueue (u32 (u_cached_prod fq + 1)) (u_cached_cons fq)
                        (u_mask fq) (u_size fq) r)
  end.

(** [nb] is a size_t; umem_nb_free receives it cut to 32 bits and its
    result is compared with the whole of it. *)
Definition umem_fill_to_kernel (fq : xdp_umem_uqueue) (d : list Z) (nb : Z)
  : Z * xdp_umem_uqueue :=
  let '(nfree, fq1) := umem_nb_free fq (u32 nb) in
  if nfree <? nb then (- ENOSPC, fq1)
  else
    let fq2 := umem_fill_loop (Z.to_nat nb) 0 d fq1 in
    (0, mk_umem_uqueue (u_cached_prod fq2) (u_cached_cons fq2) (u_mask fq2)
                       (u_size fq2)
                       (mk_umem_ring (u_cached_prod fq2)
                                     (uptrs_consumer (u_ring fq2))
                                     (umem_desc (u_ring fq2)))).

Definition umem_fill_to_kernel_ex (fq : xdp_umem_uqueue) (d : list xdp_desc)
    (nb : Z) : Z * xdp_umem_uqueue :=
  umem_fill_to_kernel fq (d_idx <$> d) nb.

(** The for loop of umem_complete_from_kernel: the entries read are
    collected in the order they are stored to d[0], d[1], ... *)
Fixpoint umem_complete_loop (n : nat) (cq : xdp_umem_uqueue)
  : list Z * xdp_umem_uqueue :=
  match n with
  | O => ([], cq)
  | S n' =>
      let idx := Z.land (u_cached_cons cq) (u_mask cq) in
      let x := umem_desc (u_ring cq) !!! Z.to_nat idx in
      let '(xs, cq') :=
        umem_complete_loop n'
          (mk_umem_uqueue (u_cached_prod cq) (u32 (u_cached_cons cq + 1))
                          (u_mask cq) (u_size cq) (u_ring cq)) in
      (x :: xs, cq')
  end.

(** Returns the entries stored to the caller's array and the new queue; the
    C return value is the number of entries. *)
Definition umem_complete_from_kernel (cq : xdp_umem_uqueue) (nb : Z)
  : list Z * xdp_umem_uqueue :=
  let '(entries, cq1) := umem_nb_avail cq (u32 nb) in
  let '(d, cq2) := umem_complete_loop (Z.to_nat entries) cq1 in
  if 0 <? entries
  then (d, mk_umem_uqueue (u_cached_prod cq2) (u_cached_cons cq2) (u_mask cq2)
                          (u_size cq2)
                          (mk_umem_ring (uptrs_producer (u_ring cq2))
                                        (u_cached_cons cq2)
                                        (umem_desc (u_ring cq2))))
  else (d, cq2).

(** lassert() ends the program when its condition fails: [None]. *)
Definition xq_get_data (idx off : Z) : option Z :=
  if idx <? NUM_FRAMES then Some (idx * FRAME_SIZE + off) else None.

Fixpoint xq_enq_loop (n : nat) (i : Z) (descs : list xdp_desc) (uq : xdp_uqueue)
  : xdp_uqueue :=
  match n with
  | O => uq
  | S n' =>
      let idx := Z.land (cached_prod uq) (mask uq) in
      let src := descs !!! Z.to_nat i in
      let r := mk_rxtx_ring (ptrs_producer (ring uq)) (ptrs_consumer (ring uq))
                 (<[Z.to_nat idx := mk_desc (d_idx src) (d_len src) (d_offset src)]>
                    (rxtx_desc (ring uq))) in
      xq_enq_loop n' (u32 (i + 1)) descs
        (mk_uqueue (u32 (cached_prod uq + 1)) (cached_cons uq)
                   (mask uq) (size uq) r)
  end.

Definition xq_enq (uq : xdp_uqueue) (descs : list xdp_desc) (ndescs : Z)
  : Z * xdp_uqueue :=
  let '(nfree, uq1) := xq_nb_free uq ndescs in
  if nfree <? ndescs then (- ENOSPC, uq1)
  else
    let uq2 := xq_enq_loop (Z.to_nat ndescs) 0 descs uq1 in
    (0, mk_uqueue (cached_prod uq2) (cached_cons uq2) (mask uq2) (size uq2)
                  (mk_rxtx_ring (cached_prod uq2) (ptrs_consumer (ring uq2))
                                (rxtx_desc (ring uq2)))).

Fixpoint xq_deq_loop (n : nat) (uq : xdp_uqueue) : list xdp_desc * xdp_uqueue :=
  match n with
  | O => ([], uq)
  | S n' =>
      let idx := Z.land (cached_cons uq) (mask uq) in
      let x := rxtx_desc (ring uq) !!! Z.to_nat idx in
      let '(xs, uq') :=
        xq_deq_loop n'
          (mk_uqueue (cached_prod uq) (u32 (cached_cons uq + 1))
                     (mask uq) (size uq) (ring uq)) in
      (x :: xs, uq')
  end.

(** [ndescs] and the entry count are ints in the source; the count is what
    xq_nb_avail returns, read as an int. *)
Definition xq_deq (uq : xdp_uqueue) (ndescs : Z)
  : Z * list xdp_desc * xdp_uqueue :=
  let '(avail, uq1) := xq_nb_avail uq (u32 ndescs) in
  let entries := s32 avail in
  let '(d, uq2) := xq_deq_loop (Z.to_nat entries) uq1 in
  if 0 <? entries
  then (entries, d,
        mk_uqueue (cached_prod uq2) (cached_cons uq2) (mask uq2) (size uq2)
                  (mk_rxtx_ring (ptrs_producer (ring uq2)) (cached_cons uq2)
                                (rxtx_desc (ring uq2))))
  else (entries, d, uq2).

(** swap_mac_addresses on the bytes of a frame: ether_dhost is bytes 0..5,
    ether_shost bytes 6..11 of struct ether_header. *)
Definition swap_mac_addresses (data : list Z) : list Z :=
  let dst_addr := take 6 data in
  let src_addr := take 6 (drop 6 data) in
  src_addr ++ dst_addr ++ drop 12 data.

(** gen_eth_frame: the packet template without its NUL, over the start of
    the frame; returns the new frame and the length written. *)
Definition gen_eth_frame (frame : list Z) : list Z * Z :=
  (take (Z.to_nat (sizeof_pkt_data - 1)) pkt_data
     ++ drop (Z.to_nat (sizeof_pkt_data - 1)) frame,
   sizeof_pkt_data - 1).

(** ** Ring positions as user space computes them *)

(** The slot of the [i]-th position after [pos]. *)
Definition uslot (mask pos : Z) (i : nat) : nat :=
  Z.to_nat (Z.land (u32 (pos + Z.of_nat i)) mask).

(** Writing [xs] at consecutive positions from [pos]. *)
Fixpoint ring_write {A} (mask pos : Z) (xs : list A) (arr : list A) : list A :=
  match xs with
  | [] => arr
  | x :: xs' =>
      ring_write mask (u32 (pos + 1)) xs' (<[Z.to_nat (Z.land pos mask) := x]> arr)
  end.

(** Reading [n] consecutive positions from [pos]. *)
Definition ring_read {A} `{Inhabited A} (mask pos : Z) (n : nat) (arr : list A)
  : list A :=
  (λ i, arr !!! uslot mask pos i) <$> seq 0 n.

(** A user queue as the sample sets it up: mask and size belong to a slot
    array of a power of two entries that a u32 can count. *)
Definition uqueue_wf (uq : xdp_uqueue) : Prop :=
  pow2_ring (mask uq) (length (rxtx_desc (ring uq))) ∧
  size uq = Z.of_nat (length (rxtx_desc (ring uq))) ∧
  size uq < 2 ^ 32.

Definition umem_uqueue_wf (q : xdp_umem_uqueue) : Prop :=
  pow2_ring (u_mask q) (length (umem_desc (u_ring q))) ∧
  u_size q = Z.of_nat (length (umem_desc (u_ring q))) ∧
  u_size q < 2 ^ 32.

(** * Properties *)

(** ** Arithmetic of the free-running counters *)

Lemma u32_range x : 0 ≤ u32 x < 2 ^ 32.
Proof. unfold u32. apply Z.mod_pos_bound. lia. Qed.

Lemma u32_small x : 0 ≤ x < 2 ^ 32 → u32 x = x.
Proof. unfold u32. intros. by apply Z.mod_small. Qed.

Lemma u32_sub_succ a b : 1 ≤ u32 (a - b) → u32 (a - u32 (b + 1)) = u32 (a - b) - 1.
Proof.
  unfold u32. intros Hge.
  rewrite Zminus_mod_idemp_r.
  replace (a - (b + 1)) with ((a - b) - 1) by lia.
  rewrite <- Zminus_mod_idemp_l.
  apply Z.mod_small.
  pose proof (Z.mod_pos_bound (a - b) (2 ^ 32)). lia.
Qed.

Lemma u32_succ_sub a b : u32 (a - b) < 2 ^ 32 - 1 → u32 (u32 (a + 1) - b) = u32 (a - b) + 1.
Proof.
  unfold u32. intros Hlt.
  rewrite Zminus_mod_idemp_l.
  replace (a + 1 - b) with ((a - b) + 1) by lia.
  rewrite <- Zplus_mod_idemp_l.
  apply Z.mod_small.
  pose proof (Z.mod_pos_bound (a - b) (2 ^ 32)). lia.
Qed.

Lemma u32_sub_split a b c :
  u32 (a - b) + u32 (c - a) < 2 ^ 32 → u32 (c - b) = u32 (a - b) + u32 (c - a).
Proof.
  unfold u32. intros Hlt.
  replace (c - b) with ((a - b) + (c - a)) by lia.
  rewrite Zplus_mod.
  apply Z.mod_small.
  pose proof (Z.mod_pos_bound (a - b) (2 ^ 32)).
  pose proof (Z.mod_pos_bound (c - a) (2 ^ 32)). lia.
Qed.

(** ** Peeking *)

Section peek.
Context {A : Type} `{Inhabited A}.
Variable valid : xsk_queue A → A → bool.
Hypothesis valid_props : ∀ q c i x,
  valid (set_invalid_descs (set_consumer q c) i) x = valid q x.

Lemma xskq_validate_some n q x q1 :
  xskq_validate valid n q = (Some x, q1) →
  Z.of_nat n ≤ xskq_nb_avail q →
  valid q1 x = true ∧ x = slot_at q1 (consumer q1) ∧ 1 ≤ xskq_nb_avail q1 ∧
  producer q1 = producer q ∧ prod_head q1 = prod_head q ∧
  ring_desc q1 = ring_desc q ∧ nentries q1 = nentries q ∧
  ring_mask q1 = ring_mask q ∧ umem_props q1 = umem_props q.
Proof.
  revert q. induction n as [|n IH]; intros q Hv Hn; [discriminate|].
  simpl in Hv. destruct (valid q (slot_at q (consumer q))) eqn:Hq.
  - injection Hv as <- <-. repeat split; try done. lia.
  - apply IH in Hv as (? & ? & ? & ? & ? & ? & ? & ? & ?).
    + repeat split; done.
    + unfold xskq_nb_avail in *. simpl. rewrite u32_sub_succ; lia.
Qed.

Lemma xskq_peek_some q x q1 :
  xskq_peek valid q = (Some x, q1) →
  valid q1 x = true ∧ x = slot_at q1 (consumer q1) ∧ 1 ≤ xskq_nb_avail q1 ∧
  producer q1 = producer q ∧ prod_head q1 = prod_head q ∧
  ring_desc q1 = ring_desc q ∧ nentries q1 = nentries q ∧
  ring_mask q1 = ring_mask q ∧ umem_props q1 = umem_props q.
Proof.
  intros Hp. apply (xskq_validate_some _ _ _ _ Hp).
  pose proof (u32_range (producer q - consumer q)). unfold xskq_nb_avail. lia.
Qed.

(** A peeked entry stays where it is: peeking again returns it and leaves
    the ring alone. *)
Lemma xskq_peek_again q x q1 :
  xskq_peek valid q = (Some x, q1) → xskq_peek valid q1 = (Some x, q1).
Proof.
  intros Hp. apply xskq_peek_some in Hp as (Hv & Hx & Hn & _).
  unfold xskq_peek.
  destruct (Z.to_nat (xskq_nb_avail q1)) as [|n] eqn:Hnat; [lia|].
  simpl. by rewrite <- Hx, Hv.
Qed.
End peek.

Lemma xskq_peek_id_again q id q1 :
  xskq_peek_id q = (Some id, q1) → xskq_peek_id q1 = (Some id, q1).
Proof. by apply xskq_peek_again. Qed.

Lemma xskq_peek_desc_again q d q1 :
  xskq_peek_desc q = (Some d, q1) → xskq_peek_desc q1 = (Some d, q1).
Proof. by apply xskq_peek_again. Qed.

(** ** Memory *)

Lemma memcpy_lookup_below src : ∀ dst m a,
  a < dst → memcpy dst src m !! a = m !! a.
Proof.
  induction src as [|b bs IH]; intros dst m a Hlt; [done|].
  simpl. rewrite IH by lia. apply lookup_insert_ne. lia.
Qed.

Lemma memcpy_lookup src : ∀ dst m (i : nat),
  (i < length src)%nat → memcpy dst src m !! (dst + Z.of_nat i) = src !! i.
Proof.
  induction src as [|b bs IH]; intros dst m i Hi; simpl in *; [lia|].
  destruct i as [|i].
  - rewrite Z.add_0_r, memcpy_lookup_below by lia. apply lookup_insert_eq.
  - replace (dst + Z.of_nat (S i)) with (dst + 1 + Z.of_nat i) by lia.
    rewrite IH by lia. done.
Qed.

(** ** RX path *)

Section rcv.
Variables (k : kernel) (xs : Z) (xdp : xdp_buff).
Variables (s : xdp_sock) (up : Z) (u : xdp_umem).
Variables (f f1 : xsk_queue Z) (id : Z) (r : xsk_queue xdp_desc).
Hypothesis Hsock : k_socks k !! xs = Some s.
Hypothesis Hdev : dev s = Some (rxq_dev xdp).
Hypothesis Hqueue : queue_id s = rxq_queue_index xdp.
Hypothesis Humem : umem s = Some up.
Hypothesis Hheap : k_umems k !! up = Some u.
Hypothesis Hfq : fq u = Some f.
Hypothesis Hpeek : xskq_peek_id f = (Some id, f1).
Hypothesis Hrx : rx s = Some r.

Let len := u32 (Z.of_nat (length (xb_data xdp))).
Let copied := with_mem (put_umem k up (set_fq u (Some f1)))
                (memcpy (xdp_umem_get_data_with_headroom u id)
                        (take (Z.to_nat len) (xb_data xdp)) (k_mem k)).

Lemma __xsk_rcv_full :
  xskq_nb_free r < 1 →
  __xsk_rcv k xs xdp = Some (- ENOSPC, put_sock copied xs (set_rx s (Some r))).
Proof.
  intros Hfull. unfold __xsk_rcv. rewrite Hsock. simpl.
  rewrite Hdev, Hqueue, !bool_decide_eq_false_2 by (intros ?; done). simpl.
  rewrite Humem. simpl. rewrite Hheap. simpl. rewrite Hfq. simpl.
  rewrite Hpeek, Hrx. simpl. unfold xskq_produce_batch_desc.
  destruct (Z.ltb_spec (xskq_nb_free r) 1); [|lia]. done.
Qed.

Lemma __xsk_rcv_room :
  1 ≤ xskq_nb_free r →
  __xsk_rcv k xs xdp =
    Some (0, put_umem
               (put_sock copied xs
                  (set_rx s (Some (set_prod_head
                     (write_slot r (prod_head r)
                                 (mk_desc id len (frame_headroom u)))
                     (u32 (prod_head r + 1))))))
               up (set_fq u (Some (xskq_discard_id f1)))).
Proof.
  intros Hroom. unfold __xsk_rcv. rewrite Hsock. simpl.
  rewrite Hdev, Hqueue, !bool_decide_eq_false_2 by (intros ?; done). simpl.
  rewrite Humem. simpl. rewrite Hheap. simpl. rewrite Hfq. simpl.
  rewrite Hpeek, Hrx. simpl. unfold xskq_produce_batch_desc.
  destruct (Z.ltb_spec (xskq_nb_free r) 1); [lia|]. done.
Qed.
End rcv.

Section rcv_result.
Variables (k : kernel) (xs : Z) (xdp : xdp_buff).
Variables (s : xdp_sock) (up : Z) (u : xdp_umem).
Variables (f f1 : xsk_queue Z) (id : Z) (r : xsk_queue xdp_desc).
Hypothesis Hsock : k_socks k !! xs = Some s.
Hypothesis Hdev : dev s = Some (rxq_dev xdp).
Hypothesis Hqueue : queue_id s = rxq_queue_index xdp.
Hypothesis Humem : umem s = Some up.
Hypothesis Hheap : k_umems k !! up = Some u.
Hypothesis Hfq : fq u = Some f.
Hypothesis Hpeek : xskq_peek_id f = (Some id, f1).
Hypothesis Hrx : rx s = Some r.

Let len := u32 (Z.of_nat (length (xb_data xdp))).
Let dst := xdp_umem_get_data_with_headroom u id.

(** The rx ring is full: the delivery fails with nospace and counts as a
    drop, the peeked fill-ring entry stays, the bytes are in the frame. *)
Lemma xsk_rcv_full :
  xskq_nb_free r < 1 →
  ∃ k', xsk_rcv k xs xdp = Some (- ENOSPC, k') ∧
        k_socks k' !! xs = Some (set_rx_dropped s (u64 (rx_dropped s + 1))) ∧
        sock_fq k' xs = Some f1 ∧
        k_mem k' = memcpy dst (take (Z.to_nat len) (xb_data xdp)) (k_mem k) ∧
        k_trace k' = k_trace k.
Proof.
  intros Hfull. eexists. unfold xsk_rcv.
  rewrite (__xsk_rcv_full k xs xdp s up u f f1 id r) by done. simpl.
  rewrite lookup_insert_eq. simpl. split; [reflexivity|].
  unfold sock_fq. simpl. rewrite !lookup_insert_eq. simpl.
  rewrite Humem. simpl. rewrite lookup_insert_eq. simpl.
  repeat split; try done.
  f_equal. destruct s; simpl in *. by rewrite Hrx.
Qed.

(** The rx ring has room: the delivery succeeds whatever the length, the
    descriptor is written, the fill-ring entry is consumed and nothing is
    counted as dropped. *)
Lemma xsk_rcv_room :
  1 ≤ xskq_nb_free r →
  ∃ k', xsk_rcv k xs xdp = Some (0, k') ∧
        k_socks k' !! xs
          = Some (set_rx s (Some (set_prod_head
                    (write_slot r (prod_head r)
                                (mk_desc id len (frame_headroom u)))
                    (u32 (prod_head r + 1))))) ∧
        sock_fq k' xs = Some (xskq_discard_id f1) ∧
        k_mem k' = memcpy dst (take (Z.to_nat len) (xb_data xdp)) (k_mem k) ∧
        k_trace k' = k_trace k ++ [EvReturnBuff].
Proof.
  intros Hroom. eexists. unfold xsk_rcv.
  rewrite (__xsk_rcv_room k xs xdp s up u f f1 id r) by done. simpl.
  split; [reflexivity|].
  unfold sock_fq. simpl. rewrite !lookup_insert_eq. simpl.
  rewrite Humem. simpl. rewrite lookup_insert_eq. simpl.
  repeat split; done.
Qed.

(** Every byte of the buffer is in the frame afterwards, from the headroom
    on, also past the end of the frame. *)
Lemma memcpy_frame (i : nat) :
  (i < Z.to_nat len)%nat →
  memcpy dst (take (Z.to_nat len) (xb_data xdp)) (k_mem k) !! (dst + Z.of_nat i)
    = xb_data xdp !! i.
Proof.
  intros Hi.
  assert (len ≤ Z.of_nat (length (xb_data xdp))) as Hle.
  { subst len. unfold u32. apply Z.mod_le; lia. }
  rewrite memcpy_lookup by (rewrite length_take; lia).
  by apply lookup_take_lt.
Qed.
End rcv_result.

(** C1, as amended.  xsk_rcv makes no length check.  On a bound socket whose
    fill ring yields an index, a buffer of any length, also one longer than
    frame_size - headroom, has its len bytes copied to
    data_with_headroom(index).  If the rx ring has a free slot, the
    descriptor {index, len, headroom} is written, the fill-ring index is
    consumed, rx_dropped is unchanged and 0 is returned.  If the rx ring is
    full, nospace is returned, rx_dropped increments and the fill-ring
    index is not consumed. *)
Theorem xsk_rcv_no_length_check k xs xdp s up u f f1 id r :
  k_socks k !! xs = Some s →
  dev s = Some (rxq_dev xdp) →
  queue_id s = rxq_queue_index xdp →
  umem s = Some up →
  k_umems k !! up = Some u →
  fq u = Some f →
  xskq_peek_id f = (Some id, f1) →
  rx s = Some r →
  ∃ err k',
    xsk_rcv k xs xdp = Some (err, k') ∧
    (∀ i : nat, (i < Z.to_nat (u32 (Z.of_nat (length (xb_data xdp)))))%nat →
       k_mem k' !! (xdp_umem_get_data_with_headroom u id + Z.of_nat i)
         = xb_data xdp !! i) ∧
    (1 ≤ xskq_nb_free r →
       err = 0 ∧
       k_socks k' !! xs
         = Some (set_rx s (Some (set_prod_head
              (write_slot r (prod_head r)
                 (mk_desc id (u32 (Z.of_nat (length (xb_data xdp))))
                          (frame_headroom u)))
              (u32 (prod_head r + 1))))) ∧
       sock_fq k' xs = Some (xskq_discard_id f1)) ∧
    (xskq_nb_free r < 1 →
       err = - ENOSPC ∧
       k_socks k' !! xs = Some (set_rx_dropped s (u64 (rx_dropped s + 1))) ∧
       sock_fq k' xs = Some f1).
Proof.
  intros Hs Hd Hq Hu Hh Hf Hp Hr.
  destruct (Z.lt_ge_cases (xskq_nb_free r) 1) as [Hfull|Hroom].
  - destruct (xsk_rcv_full k xs xdp s up u f f1 id r) as (k' & Hk & Hs' & Hf' & Hm & _);
      try done.
    exists (- ENOSPC), k'. split; [done|]. split; [|split].
    + intros i Hi. rewrite Hm. by apply memcpy_frame.
    + lia.
    + done.
  - destruct (xsk_rcv_room k xs xdp s up u f f1 id r) as (k' & Hk & Hs' & Hf' & Hm & _);
      try done.
    exists 0, k'. split; [done|]. split; [|split].
    + intros i Hi. rewrite Hm. by apply memcpy_frame.
    + done.
    + lia.
Qed.

Lemma xsk_rcv_no_length_check_witness :
  ∃ err k',
    xsk_rcv Scenario.e1 Scenario.the_sk (Scenario.buffer 2049) = Some (err, k') ∧
    k_mem k' !! (65536 + 2048) = Some 171 ∧
    err = 0 ∧
    sock_fq k' Scenario.the_sk = Some (xskq_discard_id Scenario.fq8).
Proof.
  destruct (xsk_rcv_no_length_check Scenario.e1 Scenario.the_sk
              (Scenario.buffer 2049)
              (mk_xs PF_XDP 1 false (Some Scenario.the_umem) (Some Scenario.lo)
                     0 (Some (Scenario.rx_ring 8)) None 0)
              Scenario.the_umem Scenario.umem8 Scenario.fq8 Scenario.fq8 0
              (Scenario.rx_ring 8))
    as (err & k' & Hk & Hm & Hroom & _); try reflexivity.
  exists err, k'. split; [exact Hk|]. split.
  - apply (Hm 2048%nat). vm_compute. lia.
  - destruct Hroom as (? & _ & ?); [vm_compute; discriminate|]. by split.
Defined.

(** C1, as stated, fails: a 2049-byte buffer delivered to a socket whose
    frames hold 2048 bytes is accepted; nothing is counted as dropped, the
    fill-ring index 0 is consumed and the byte past the frame is written. *)
Lemma xsk_rcv_oversize_not_dropped :
  frame_size Scenario.umem8 - frame_headroom Scenario.umem8
    < Z.of_nat (length (xb_data (Scenario.buffer 2049))) ∧
  Scenario.fill_ring_of Scenario.e1 = Some [0; 1; 2; 3; 4; 5; 6; 7] ∧
  ¬ rcv_dropped Scenario.e1 Scenario.the_sk (Scenario.buffer 2049) ∧
  ∃ k',
    xsk_rcv Scenario.e1 Scenario.the_sk (Scenario.buffer 2049) = Some (0, k') ∧
    Scenario.rx_dropped_of k' = Some 0 ∧
    Scenario.fill_ring_of k' = Some [1; 2; 3; 4; 5; 6; 7] ∧
    k_mem Scenario.e1 !! (65536 + 2048) = None ∧
    k_mem k' !! (65536 + 2048) = Some 171.
Proof.
  split; [vm_compute; reflexivity|]. split; [reflexivity|]. split.
  - intros (err & k' & Hk & Hne & _). vm_compute in Hk.
    injection Hk as <- _. by apply Hne.
  - eexists. split; [vm_compute; reflexivity|]. by vm_compute.
Qed.

(** C3.  When the rx ring is full, xsk_rcv returns nospace, counts a drop
    and leaves the peeked fill-ring entry in place (peeking again yields the
    same index); the entry is consumed only when the descriptor has been
    produced.  Three buffers delivered against an rx ring of capacity 2 and
    a fill ring holding 0..7 leave the fill ring holding 2..7 and
    rx_dropped = 1. *)
Theorem xsk_rcv_rx_full_keeps_fill_entry :
  (∀ k xs xdp s up u f f1 id r,
     k_socks k !! xs = Some s →
     dev s = Some (rxq_dev xdp) →
     queue_id s = rxq_queue_index xdp →
     umem s = Some up →
     k_umems k !! up = Some u →
     fq u = Some f →
     xskq_peek_id f = (Some id, f1) →
     rx s = Some r →
     (xskq_nb_free r < 1 →
        ∃ k', xsk_rcv k xs xdp = Some (- ENOSPC, k') ∧
              sock_fq k' xs = Some f1 ∧
              xskq_peek_id f1 = (Some id, f1) ∧
              fill_entry_kept k xs k' ∧
              rx_dropped <$> k_socks k' !! xs = Some (u64 (rx_dropped s + 1))) ∧
     (1 ≤ xskq_nb_free r →
        ∃ k', xsk_rcv k xs xdp = Some (0, k') ∧
              sock_fq k' xs = Some (xskq_discard_id f1) ∧
              consumer (xskq_discard_id f1) = u32 (consumer f1 + 1) ∧
              rx_dropped <$> k_socks k' !! xs = Some (rx_dropped s))) ∧
  (∃ k', Scenario.deliver Scenario.e2
           [Scenario.buffer 64; Scenario.buffer 64; Scenario.buffer 64]
           = Some ([0; 0; - ENOSPC], k') ∧
         Scenario.fill_ring_of Scenario.e2 = Some [0; 1; 2; 3; 4; 5; 6; 7] ∧
         Scenario.fill_ring_of k' = Some [2; 3; 4; 5; 6; 7] ∧
         Scenario.rx_dropped_of k' = Some 1).
Proof.
  split.
  - intros k xs xdp s up u f f1 id r Hs Hd Hq Hu Hh Hf Hp Hr. split.
    + intros Hfull.
      destruct (xsk_rcv_full k xs xdp s up u f f1 id r)
        as (k' & Hk & Hs' & Hf' & _); try done.
      exists k'. pose proof (xskq_peek_id_again _ _ _ Hp) as Hagain.
      repeat split; try done.
      * exists f, f1, id. repeat split; try done.
        { unfold sock_fq. rewrite Hs. simpl. rewrite Hu. simpl.
          rewrite Hh. done. }
        { by rewrite Hp. }
      * by rewrite Hs'.
    + intros Hroom.
      destruct (xsk_rcv_room k xs xdp s up u f f1 id r)
        as (k' & Hk & Hs' & Hf' & _); try done.
      exists k'. repeat split; try done. by rewrite Hs'.
  - eexists. split; [vm_compute; reflexivity|]. by vm_compute.
Qed.

Lemma xsk_rcv_rx_full_keeps_fill_entry_witness :
  (∃ k', xsk_rcv Scenario.e2_full Scenario.the_sk (Scenario.buffer 64)
           = Some (- ENOSPC, k') ∧
         fill_entry_kept Scenario.e2_full Scenario.the_sk k') ∧
  (∃ k', xsk_rcv Scenario.e2 Scenario.the_sk (Scenario.buffer 64)
           = Some (0, k') ∧
         sock_fq k' Scenario.the_sk = Some (xskq_discard_id Scenario.fq8)).
Proof.
  destruct xsk_rcv_rx_full_keeps_fill_entry as [Hgen _]. split.
  - edestruct (Hgen Scenario.e2_full Scenario.the_sk (Scenario.buffer 64))
      as [Hfull _]; [vm_compute; reflexivity ..|].
    destruct Hfull as (k' & Hk & _ & _ & Hkept & _); [vm_compute; reflexivity|].
    exists k'. by split.
  - edestruct (Hgen Scenario.e2 Scenario.the_sk (Scenario.buffer 64))
      as [_ Hroom]; [vm_compute; reflexivity ..|].
    destruct Hroom as (k' & Hk & Hf & _); [vm_compute; discriminate|].
    exists k'. split; [exact Hk|exact Hf].
Defined.

Example e2_full_reached :
  Scenario.deliver Scenario.e2 [Scenario.buffer 64; Scenario.buffer 64]
    = Some ([0; 0], Scenario.e2_full).
Proof. vm_compute. reflexivity. Qed.

(** ** Ring positions *)

Lemma land_mask_range mask slots i :
  pow2_ring mask slots → 0 ≤ Z.land i mask < Z.of_nat slots.
Proof.
  intros (m & Hm & -> & ->). rewrite Z.land_ones by done.
  apply Z.mod_pos_bound. by apply Z.pow_pos_nonneg.
Qed.

Lemma slot_at_write_slot {A} `{Inhabited A} (q : xsk_queue A) i x :
  pow2_ring (ring_mask q) (length (ring_desc q)) →
  slot_at (write_slot q i x) i = x.
Proof.
  intros Hwf. unfold slot_at, write_slot, slot_index. simpl.
  pose proof (land_mask_range _ _ i Hwf).
  apply list_lookup_total_insert_eq. lia.
Qed.

(** ** Completion ring: reserve, then produce *)

Lemma cq_inv_split {A} (q : xsk_queue A) :
  cq_inv q → u32 (prod_head q - consumer q) = xskq_nb_avail q + reserved q.
Proof.
  intros [Hle Hn]. unfold xskq_nb_avail, reserved in *.
  apply u32_sub_split. lia.
Qed.

Lemma xskq_reserve_id_ok c c1 :
  cq_inv c → xskq_reserve_id c = (0, c1) →
  cq_inv c1 ∧ reserved c1 = reserved c + 1 ∧
  xskq_nb_avail c1 = xskq_nb_avail c ∧
  c1 = set_prod_head c (u32 (prod_head c + 1)).
Proof.
  intros Hinv Hres. pose proof (cq_inv_split c Hinv) as Hsplit.
  destruct Hinv as [Hle Hn]. unfold xskq_reserve_id, xskq_nb_free in Hres.
  destruct (Z.ltb_spec (nentries c - u32 (prod_head c - consumer c)) 1);
    [discriminate|].
  injection Hres as <-.
  assert (reserved (set_prod_head c (u32 (prod_head c + 1))) = reserved c + 1)
    as Hr.
  { unfold reserved in *. simpl. apply u32_succ_sub.
    pose proof (u32_range (producer c - consumer c)).
    unfold xskq_nb_avail in *. lia. }
  repeat split; try done.
  - rewrite Hr. unfold xskq_nb_avail in *. simpl. lia.
Qed.

Lemma xskq_produce_id_reserved c id :
  cq_inv c → 1 ≤ reserved c →
  let c1 := set_producer (write_slot c (producer c) id) (u32 (producer c + 1)) in
  xskq_produce_id c id = (0, c1) ∧
  cq_inv c1 ∧ reserved c1 = reserved c - 1 ∧
  xskq_nb_avail c1 = xskq_nb_avail c + 1.
Proof.
  intros [Hle Hn] Hres c1. unfold xskq_produce_id.
  pose proof (u32_range (prod_head c - producer c)).
  pose proof (u32_range (producer c - consumer c)).
  unfold reserved, xskq_nb_avail in *.
  destruct (Z.leb_spec (nentries c) (u32 (producer c - consumer c))); [lia|].
  assert (u32 (prod_head c - u32 (producer c + 1))
          = u32 (prod_head c - producer c) - 1) as Hr
    by (by apply u32_sub_succ).
  assert (u32 (u32 (producer c + 1) - consumer c)
          = u32 (producer c - consumer c) + 1) as Ha
    by (apply u32_succ_sub; lia).
  subst c1. unfold cq_inv, reserved, xskq_nb_avail. simpl.
  rewrite Hr, Ha. repeat split; try done; lia.
Qed.

Lemma xsk_destruct_skb_unfold k skb s up u c :
  k_socks k !! skb_sk skb = Some s →
  umem s = Some up →
  k_umems k !! up = Some u →
  cq u = Some c →
  xsk_destruct_skb k skb =
    Some (emit (WARN_ON_ONCE
                  (put_umem k up
                     (set_cq u (Some (xskq_produce_id c (u32 (destructor_arg skb))).2)))
                  (negb ((xskq_produce_id c (u32 (destructor_arg skb))).1 =? 0)))
               (EvSockWfree (skb_sk skb))).
Proof.
  intros Hs Hu Hh Hc. unfold xsk_destruct_skb.
  rewrite Hs. simpl. rewrite Hu. simpl. rewrite Hh. simpl. rewrite Hc. simpl.
  by destruct (xskq_produce_id c (u32 (destructor_arg skb))).
Qed.

Lemma sock_cq_put_umem k xs s up u c :
  k_socks k !! xs = Some s → umem s = Some up →
  sock_cq (put_umem k up (set_cq u (Some c))) xs = Some c.
Proof.
  intros Hs Hu. unfold sock_cq. simpl. rewrite Hs. simpl. rewrite Hu. simpl.
  by rewrite lookup_insert_eq.
Qed.

(** C2.  The destructor's produce cannot fail once a slot has been reserved.
    (1) A successful reserve in the sendmsg iteration leaves at least one
    reserved slot and keeps the ring's accounting.  (2) With a reserved slot,
    xsk_destruct_skb publishes the frame index at the producer position,
    raises no diagnostic and releases the buffer.  (3) Were the produce to
    fail, xsk_destruct_skb raises the WARN_ON_ONCE diagnostic: the warned
    flag is set afterwards, and the warning is in the trace if it had not
    been raised before. *)
Theorem xsk_destruct_skb_produce :
  (∀ c c1,
     cq_inv c → xskq_reserve_id c = (0, c1) → cq_inv c1 ∧ 1 ≤ reserved c1) ∧
  (∀ k skb s up u c,
     k_socks k !! skb_sk skb = Some s →
     umem s = Some up →
     k_umems k !! up = Some u →
     cq u = Some c →
     cq_inv c → 1 ≤ reserved c →
     pow2_ring (ring_mask c) (length (ring_desc c)) →
     ∃ c1 k',
       xskq_produce_id c (u32 (destructor_arg skb)) = (0, c1) ∧
       xsk_destruct_skb k skb = Some k' ∧
       sock_cq k' (skb_sk skb) = Some c1 ∧
       slot_at c1 (producer c) = u32 (destructor_arg skb) ∧
       xskq_nb_avail c1 = xskq_nb_avail c + 1 ∧
       reserved c1 = reserved c - 1 ∧ cq_inv c1 ∧
       k_warned k' = k_warned k ∧
       k_trace k' = k_trace k ++ [EvSockWfree (skb_sk skb)]) ∧
  (∀ k skb s up u c,
     k_socks k !! skb_sk skb = Some s →
     umem s = Some up →
     k_umems k !! up = Some u →
     cq u = Some c →
     (xskq_produce_id c (u32 (destructor_arg skb))).1 ≠ 0 →
     ∃ k',
       xsk_destruct_skb k skb = Some k' ∧
       k_warned k' = true ∧
       (k_warned k = false →
        k_trace k' = k_trace k ++ [EvWarn; EvSockWfree (skb_sk skb)])).
Proof.
  split; [|split].
  - intros c c1 Hinv Hres.
    destruct (xskq_reserve_id_ok c c1 Hinv Hres) as (? & Hr & _). split; [done|].
    pose proof (u32_range (prod_head c - producer c)). unfold reserved in *. lia.
  - intros k skb s up u c Hs Hu Hh Hc Hinv Hres Hwf.
    destruct (xskq_produce_id_reserved c (u32 (destructor_arg skb)) Hinv Hres)
      as (Hp & Hinv1 & Hr1 & Ha1).
    eexists _, _. split; [exact Hp|].
    rewrite (xsk_destruct_skb_unfold k skb s up u c), Hp by done. simpl.
    split; [reflexivity|]. unfold WARN_ON_ONCE. simpl.
    split; [by apply (sock_cq_put_umem k _ s)|].
    split; [|done].
    unfold slot_at. simpl. by apply (slot_at_write_slot c).
  - intros k skb s up u c Hs Hu Hh Hc Hfail.
    eexists. rewrite (xsk_destruct_skb_unfold k skb s up u c) by done.
    split; [reflexivity|].
    apply Z.eqb_neq in Hfail. rewrite Hfail. unfold WARN_ON_ONCE. simpl.
    destruct (k_warned k) eqn:Hw; simpl.
    + split; [done|discriminate].
    + split; [done|]. intros _. by rewrite <- app_assoc.
Qed.

Lemma xsk_destruct_skb_produce_witness :
  (cq_inv Scenario.cq4_reserved ∧ 1 ≤ reserved Scenario.cq4_reserved) ∧
  (∃ k', xsk_destruct_skb
           (Scenario.bound_with (Scenario.umem_with Scenario.fq8 Scenario.cq4_reserved)
                                None None 1500)
           (Scenario.skb_of 5) = Some k' ∧
         Scenario.completion_ring_of k' = Some [5] ∧
         k_warned k' = false) ∧
  (∃ k', xsk_destruct_skb
           (Scenario.bound_with (Scenario.umem_with Scenario.fq8 Scenario.cq4_full)
                                None None 1500)
           (Scenario.skb_of 5) = Some k' ∧
         k_warned k' = true).
Proof.
  destruct xsk_destruct_skb_produce as (Hres & Hok & Hfail).
  assert (cq_inv Scenario.cq4) as Hinv4 by (split; by vm_compute).
  assert (cq_inv Scenario.cq4_reserved) as Hinv by (split; by vm_compute).
  split; [|split].
  - apply (Hres Scenario.cq4); [exact Hinv4 | reflexivity].
  - edestruct (Hok (Scenario.bound_with
                      (Scenario.umem_with Scenario.fq8 Scenario.cq4_reserved)
                      None None 1500) (Scenario.skb_of 5))
      as (c1 & k' & Hp & Hk & Hcq & _ & _ & _ & _ & Hw & _);
      [vm_compute; reflexivity .. | exact Hinv | by vm_compute | |].
    { exists 2. by vm_compute. }
    exists k'. split; [exact Hk|]. split; [|exact Hw].
    vm_compute in Hp. injection Hp as <-.
    revert Hcq. unfold sock_cq, Scenario.completion_ring_of.
    simpl. intros Hcq. vm_compute in Hk. injection Hk as <-. by vm_compute.
  - edestruct (Hfail (Scenario.bound_with
                        (Scenario.umem_with Scenario.fq8 Scenario.cq4_full)
                        None None 1500) (Scenario.skb_of 5))
      as (k' & Hk & Hw & _); [vm_compute; reflexivity .. | by vm_compute |].
    exists k'. by split.
Defined.

(** ** TX path *)

Lemma xskq_reserve_id_success c c1 :
  xskq_reserve_id c = (0, c1) → c1 = set_prod_head c (u32 (prod_head c + 1)).
Proof.
  unfold xskq_reserve_id. destruct (xskq_nb_free c <? 1); [discriminate|].
  by intros [= <-].
Qed.

(** A reservation moves the private producer position only: what user
    space sees of the ring is the same. *)
Lemma xskq_reserve_id_unpublished c c1 :
  xskq_reserve_id c = (0, c1) →
  producer c1 = producer c ∧ consumer c1 = consumer c ∧
  ring_desc c1 = ring_desc c ∧ ring_contents c1 = ring_contents c ∧
  prod_head c1 = u32 (prod_head c + 1).
Proof. intros ->%xskq_reserve_id_success. done. Qed.

Section xmit_msgsize.
Variables (env : nat → tx_outcome) (k : kernel) (sk : Z).
Variables (s : xdp_sock) (t t1 : xsk_queue xdp_desc) (desc : xdp_desc).
Variables (up : Z) (u : xdp_umem) (c c1 : xsk_queue Z).
Variables (d : Z) (nd : net_device).
Hypothesis Hsock : k_socks k !! sk = Some s.
Hypothesis Htx : tx s = Some t.
Hypothesis Hpeek : xskq_peek_desc t = (Some desc, t1).
Hypothesis Humem : umem s = Some up.
Hypothesis Hheap : k_umems k !! up = Some u.
Hypothesis Hcq : cq u = Some c.
Hypothesis Hres : xskq_reserve_id c = (0, c1).
Hypothesis Hdev : dev s = Some d.
Hypothesis Hnd : k_devs k !! d = Some nd.
Hypothesis Hmtu : dev_mtu nd < d_len desc.

Lemma xmit_loop_msgsize mb err sent :
  xmit_loop env sk (S mb) err sent k =
    xmit_out sk (- EMSGSIZE) sent
      (put_umem (put_sock k sk (set_tx s (Some t1))) up (set_cq u (Some c1))).
Proof.
  simpl. rewrite Hsock. simpl. rewrite Htx. simpl. rewrite Hpeek.
  rewrite Humem. simpl. rewrite Hheap. simpl. rewrite Hcq. simpl.
  rewrite Hres. simpl. rewrite Hdev. simpl. rewrite Hnd. simpl.
  destruct (Z.gtb_spec (d_len desc) (dev_mtu nd)); [done|lia].
Qed.

Lemma xmit_loop_msgsize_result mb err sent :
  ∃ k',
    xmit_loop env sk (S mb) err sent k = Some (- EMSGSIZE, k') ∧
    tx <$> k_socks k' !! sk = Some (Some t1) ∧
    xskq_peek_desc t1 = (Some desc, t1) ∧
    sock_cq k' sk = Some c1 ∧
    k_trace k' = k_trace k ++ (if sent then [EvWriteSpace sk] else []).
Proof.
  rewrite xmit_loop_msgsize. unfold xmit_out. eexists. split; [reflexivity|].
  assert (∀ k0 : kernel, k_socks (if sent then emit k0 (EvWriteSpace sk) else k0)
                         = k_socks k0) as Hsocks by (by destruct sent).
  assert (∀ k0 : kernel, k_umems (if sent then emit k0 (EvWriteSpace sk) else k0)
                         = k_umems k0) as Humems by (by destruct sent).
  unfold sock_cq. rewrite Hsocks, Humems. simpl.
  rewrite !lookup_insert_eq. simpl. rewrite Humem. simpl.
  rewrite lookup_insert_eq. simpl.
  repeat split; try done.
  - by apply (xskq_peek_desc_again t).
  - destruct sent; simpl; [done|by rewrite app_nil_r].
Qed.
End xmit_msgsize.

Lemma xsk_sendmsg_unfold env k sock so sk s d nd flags :
  k_sockets k !! sock = Some so →
  sock_sk so = Some sk →
  k_socks k !! sk = Some s →
  dev s = Some d →
  k_devs k !! d = Some nd →
  Z.land (dev_flags nd) IFF_UP ≠ 0 →
  xsk_sendmsg env k sock flags = xsk_generic_xmit env k sk flags.
Proof.
  intros Hso Hsk Hs Hd Hnd Hup. unfold xsk_sendmsg.
  rewrite Hso. simpl. rewrite Hsk. simpl. rewrite Hs. simpl. rewrite Hd, Hnd.
  simpl. apply Z.eqb_neq in Hup. by rewrite Hup.
Qed.

(** C6.  An iteration of the transmit loop that has reserved a completion
    slot and finds the peeked descriptor longer than the device MTU ends the
    call with msgsize: the descriptor is still the next one of the tx ring,
    and of the completion ring only the private producer position has moved
    (the reserved slot); producer, consumer, slots and published contents
    are as before.  So it is for the call whose first descriptor is too
    long, and in scenario E4. *)
Theorem xsk_sendmsg_msgsize :
  (∀ env k sk s t t1 desc up u c c1 d nd mb err sent,
     k_socks k !! sk = Some s →
     tx s = Some t →
     xskq_peek_desc t = (Some desc, t1) →
     umem s = Some up →
     k_umems k !! up = Some u →
     cq u = Some c →
     xskq_reserve_id c = (0, c1) →
     dev s = Some d →
     k_devs k !! d = Some nd →
     dev_mtu nd < d_len desc →
     ∃ k',
       xmit_loop env sk (S mb) err sent k = Some (- EMSGSIZE, k') ∧
       tx <$> k_socks k' !! sk = Some (Some t1) ∧
       xskq_peek_desc t1 = (Some desc, t1) ∧
       sock_cq k' sk = Some c1 ∧
       producer c1 = producer c ∧ consumer c1 = consumer c ∧
       ring_desc c1 = ring_desc c ∧ ring_contents c1 = ring_contents c ∧
       prod_head c1 = u32 (prod_head c + 1)) ∧
  (∀ env k sock flags so sk s t t1 desc up u c c1 d nd,
     k_sockets k !! sock = Some so →
     sock_sk so = Some sk →
     k_socks k !! sk = Some s →
     tx s = Some t →
     xskq_peek_desc t = (Some desc, t1) →
     umem s = Some up →
     k_umems k !! up = Some u →
     cq u = Some c →
     xskq_reserve_id c = (0, c1) →
     dev s = Some d →
     k_devs k !! d = Some nd →
     Z.land (dev_flags nd) IFF_UP ≠ 0 →
     Z.land flags MSG_DONTWAIT ≠ 0 →
     dev_mtu nd < d_len desc →
     ∃ k',
       xsk_sendmsg env k sock flags = Some (- EMSGSIZE, k') ∧
       tx <$> k_socks k' !! sk = Some (Some t1) ∧
       xskq_peek_desc t1 = (Some desc, t1) ∧
       sock_cq k' sk = Some c1 ∧
       producer c1 = producer c ∧ consumer c1 = consumer c ∧
       ring_desc c1 = ring_desc c ∧ ring_contents c1 = ring_contents c ∧
       prod_head c1 = u32 (prod_head c + 1)) ∧
  (∃ k',
     xsk_sendmsg Scenario.good_device Scenario.e4 Scenario.the_sock MSG_DONTWAIT
       = Some (- EMSGSIZE, k') ∧
     Scenario.tx_ring_of Scenario.e4 = Some [mk_desc 0 2000 0] ∧
     Scenario.tx_ring_of k' = Some [mk_desc 0 2000 0] ∧
     Scenario.completion_ring_of Scenario.e4 = Some [] ∧
     Scenario.completion_ring_of k' = Some []).
Proof.
  split; [|split].
  - intros env k sk s t t1 desc up u c c1 d nd mb err sent
           Hs Ht Hp Hu Hh Hc Hr Hd Hnd Hmtu.
    destruct (xmit_loop_msgsize_result env k sk s t t1 desc up u c c1 d nd
                Hs Ht Hp Hu Hh Hc Hr Hd Hnd Hmtu mb err sent)
      as (k' & Hk & Htx & Hagain & Hcq & _).
    destruct (xskq_reserve_id_unpublished c c1 Hr) as (? & ? & ? & ? & ?).
    exists k'. repeat split; done.
  - intros env k sock flags so sk s t t1 desc up u c c1 d nd
           Hso Hsk Hs Ht Hp Hu Hh Hc Hr Hd Hnd Hup Hnowait Hmtu.
    rewrite (xsk_sendmsg_unfold env k sock so sk s d nd) by done.
    unfold xsk_generic_xmit. rewrite Hs. simpl.
    rewrite Ht. rewrite bool_decide_eq_false_2 by done.
    apply Z.eqb_neq in Hnowait. rewrite Hnowait.
    destruct (xmit_loop_msgsize_result env k sk s t t1 desc up u c c1 d nd
                Hs Ht Hp Hu Hh Hc Hr Hd Hnd Hmtu 15%nat 0 false)
      as (k' & Hk & Htx & Hagain & Hcq & _).
    destruct (xskq_reserve_id_unpublished c c1 Hr) as (? & ? & ? & ? & ?).
    exists k'. repeat split; done.
  - eexists. split; [vm_compute; reflexivity|]. by vm_compute.
Qed.

Lemma xsk_sendmsg_msgsize_witness :
  (∃ k',
     xmit_loop Scenario.good_device Scenario.the_sk 3 0 true Scenario.e4
       = Some (- EMSGSIZE, k') ∧
     sock_cq k' Scenario.the_sk
       = Some (set_prod_head Scenario.cq4 1)) ∧
  (∃ k',
     xsk_sendmsg Scenario.good_device Scenario.e4 Scenario.the_sock MSG_DONTWAIT
       = Some (- EMSGSIZE, k') ∧
     sock_cq k' Scenario.the_sk
       = Some (set_prod_head Scenario.cq4 1)).
Proof.
  destruct xsk_sendmsg_msgsize as (Hiter & Hcall & _). split.
  - edestruct (Hiter Scenario.good_device Scenario.e4 Scenario.the_sk)
      as (k' & Hk & _ & _ & Hcq & _);
      [vm_compute; reflexivity .. | by vm_compute |].
    exists k'. split; [exact Hk | exact Hcq].
  - edestruct (Hcall Scenario.good_device Scenario.e4 Scenario.the_sock
                 MSG_DONTWAIT)
      as (k' & Hk & _ & _ & Hcq & _);
      [vm_compute; reflexivity .. | by vm_compute | by vm_compute | by vm_compute |].
    exists k'. split; [exact Hk | exact Hcq].
Defined.

(** The call that has already sent a frame: the 64-byte frame goes out and
    completes, the oversize one ends the call with msgsize and stays. *)
Example xsk_sendmsg_msgsize_second :
  ∃ k',
    xsk_sendmsg Scenario.good_device Scenario.e4_second Scenario.the_sock
                MSG_DONTWAIT = Some (- EMSGSIZE, k') ∧
    Scenario.tx_ring_of k' = Some [mk_desc 1 2000 0] ∧
    Scenario.completion_ring_of k' = Some [0].
Proof. eexists. split; [vm_compute; reflexivity|]. by vm_compute. Qed.

(** ** sendmsg without a tx ring *)

(** C4, as amended.  On a socket whose tx ring is absent, sendmsg fails with
    noxio when no device is bound, with netdown when the bound interface is
    down, and with nobufs only when the device is bound and up: the device
    checks of xsk_sendmsg come before the tx-ring check of
    xsk_generic_xmit.  Nothing changes in any of the three cases. *)
Theorem xsk_sendmsg_no_tx_ring env k sock so sk s flags :
  k_sockets k !! sock = Some so →
  sock_sk so = Some sk →
  k_socks k !! sk = Some s →
  tx s = None →
  (dev s = None → xsk_sendmsg env k sock flags = Some (- ENXIO, k)) ∧
  (∀ d nd,
     dev s = Some d → k_devs k !! d = Some nd →
     (Z.land (dev_flags nd) IFF_UP = 0 →
      xsk_sendmsg env k sock flags = Some (- ENETDOWN, k)) ∧
     (Z.land (dev_flags nd) IFF_UP ≠ 0 →
      xsk_sendmsg env k sock flags = Some (- ENOBUFS, k))).
Proof.
  intros Hso Hsk Hs Htx. split.
  - intros Hd. unfold xsk_sendmsg.
    rewrite Hso. simpl. rewrite Hsk. simpl. rewrite Hs. simpl. by rewrite Hd.
  - intros d nd Hd Hnd. split.
    + intros Hdown. unfold xsk_sendmsg.
      rewrite Hso. simpl. rewrite Hsk. simpl. rewrite Hs. simpl.
      rewrite Hd, Hnd. simpl. by rewrite Hdown.
    + intros Hup. rewrite (xsk_sendmsg_unfold env k sock so sk s d nd) by done.
      unfold xsk_generic_xmit. rewrite Hs. simpl. rewrite Htx.
      by rewrite bool_decide_eq_true_2.
Qed.

Lemma xsk_sendmsg_no_tx_ring_witness :
  xsk_sendmsg Scenario.good_device Scenario.created Scenario.the_sock MSG_DONTWAIT
    = Some (- ENXIO, Scenario.created) ∧
  xsk_sendmsg Scenario.good_device Scenario.bound_down Scenario.the_sock MSG_DONTWAIT
    = Some (- ENETDOWN, Scenario.bound_down) ∧
  xsk_sendmsg Scenario.good_device Scenario.e1 Scenario.the_sock MSG_DONTWAIT
    = Some (- ENOBUFS, Scenario.e1).
Proof.
  split; [|split].
  - edestruct (xsk_sendmsg_no_tx_ring Scenario.good_device Scenario.created
                 Scenario.the_sock) as [Hnodev _]; [vm_compute; reflexivity ..|].
    apply Hnodev. reflexivity.
  - edestruct (xsk_sendmsg_no_tx_ring Scenario.good_device Scenario.bound_down
                 Scenario.the_sock) as [_ Hdev]; [vm_compute; reflexivity ..|].
    edestruct Hdev as [Hdown _]; [vm_compute; reflexivity ..|].
    apply Hdown. reflexivity.
  - edestruct (xsk_sendmsg_no_tx_ring Scenario.good_device Scenario.e1
                 Scenario.the_sock) as [_ Hdev]; [vm_compute; reflexivity ..|].
    edestruct Hdev as [_ Hup]; [vm_compute; reflexivity ..|].
    apply Hup. by vm_compute.
Defined.

(** C4, as stated, fails: on a socket with neither tx ring nor device,
    sendmsg fails with noxio, not nobufs; on one whose interface is down,
    with netdown. *)
Lemma xsk_sendmsg_no_tx_ring_not_nobufs :
  (tx <$> k_socks Scenario.created !! Scenario.the_sk) = Some None ∧
  xsk_sendmsg Scenario.good_device Scenario.created Scenario.the_sock MSG_DONTWAIT
    = Some (- ENXIO, Scenario.created) ∧
  (tx <$> k_socks Scenario.bound_down !! Scenario.the_sk) = Some None ∧
  xsk_sendmsg Scenario.good_device Scenario.bound_down Scenario.the_sock MSG_DONTWAIT
    = Some (- ENETDOWN, Scenario.bound_down) ∧
  - ENXIO ≠ - ENOBUFS ∧ - ENETDOWN ≠ - ENOBUFS.
Proof. repeat split; by vm_compute. Qed.

(** ** Bind *)

Lemma bind_out_unlock_err k d nd err :
  k_devs k !! d = Some nd → err ≠ 0 →
  bind_out_unlock k d err =
    Some (err, emit (with_devs k (<[d := mk_dev (dev_flags nd) (dev_mtu nd)
                                         (num_rx_queues nd) (dev_refcnt nd - 1)]>
                                    (k_devs k)))
                    (EvDevPut d)).
Proof.
  intros Hnd Herr. unfold bind_out_unlock, dev_put.
  apply Z.eqb_neq in Herr. rewrite Herr. simpl. by rewrite Hnd.
Qed.

(** The checks every bind passes before it looks at the flags. *)
Section bind_prefix.
Variables (k : kernel) (sock : Z) (sxdp : sockaddr_xdp) (addr_len : Z).
Variables (so : socket) (sk : Z) (s : xdp_sock) (nd : net_device).
Hypothesis Hso : k_sockets k !! sock = Some so.
Hypothesis Hlen : sizeof_sockaddr_xdp ≤ u64 addr_len.
Hypothesis Hfam : sxdp_family sxdp = AF_XDP.
Hypothesis Hsk : sock_sk so = Some sk.
Hypothesis Hs : k_socks k !! sk = Some s.
Hypothesis Hnd : k_devs k !! sxdp_ifindex sxdp = Some nd.
Hypothesis Hring : is_Some (rx s) ∨ is_Some (tx s).
Hypothesis Hqueue : sxdp_queue_id sxdp < num_rx_queues nd.

Let d := sxdp_ifindex sxdp.
Let held := mk_dev (dev_flags nd) (dev_mtu nd) (num_rx_queues nd)
                   (dev_refcnt nd + 1).
Let k1 := emit (with_devs k (<[d := held]> (k_devs k))) (EvDevHold d).

Lemma xsk_bind_shared_own_umem :
  Z.land (sxdp_flags sxdp) XDP_SHARED_UMEM ≠ 0 →
  is_Some (umem s) →
  xsk_bind k sock sxdp addr_len = bind_out_unlock k1 d (- EINVAL).
Proof.
  intros Hflag Hown. unfold xsk_bind. rewrite Hso. simpl.
  destruct (Z.ltb_spec (u64 addr_len) sizeof_sockaddr_xdp); [lia|].
  rewrite bool_decide_eq_false_2 by (by intros ?).
  rewrite Hsk. simpl. rewrite Hs. simpl.
  unfold dev_get_by_index. rewrite Hnd. simpl. rewrite lookup_insert_eq. simpl.
  replace (bool_decide (rx s = None) && bool_decide (tx s = None)) with false.
  2:{ destruct Hring as [[? ->]|[? ->]]; simpl; [done|by rewrite andb_false_r]. }
  destruct (Z.leb_spec (num_rx_queues nd) (sxdp_queue_id sxdp)); [lia|].
  apply Z.eqb_neq in Hflag. rewrite Hflag. simpl.
  by rewrite bool_decide_eq_true_2.
Qed.

Lemma xsk_bind_shared_lookup :
  Z.land (sxdp_flags sxdp) XDP_SHARED_UMEM ≠ 0 →
  umem s = None →
  xsk_bind k sock sxdp addr_len =
    '(r, k2) ← xsk_lookup_xsk_from_fd k1 (sxdp_shared_umem_fd sxdp);
    match r with
    | inl err => bind_out_unlock k2 d err
    | inr so2 =>
        sock2 ← k_sockets k2 !! so2;
        sk2 ← sock_sk sock2;
        umem_xs ← k_socks k2 !! sk2;
        match umem umem_xs with
        | None => bind_out_unlock (sockfd_put k2 so2) d (- EBADF)
        | Some up =>
            if bool_decide (dev umem_xs ≠ Some d)
               || bool_decide (queue_id umem_xs ≠ sxdp_queue_id sxdp)
            then bind_out_unlock (sockfd_put k2 so2) d (- EINVAL)
            else
              k3 ← xdp_get_umem k2 up;
              s' ← k_socks k3 !! sk;
              bind_attach (sockfd_put (put_sock k3 sk (set_umem s' (Some up))) so2)
                          sk (dev s) d sxdp (umem s')
        end
    end.
Proof.
  intros Hflag Hnone. unfold xsk_bind. rewrite Hso. simpl.
  destruct (Z.ltb_spec (u64 addr_len) sizeof_sockaddr_xdp); [lia|].
  rewrite bool_decide_eq_false_2 by (by intros ?).
  rewrite Hsk. simpl. rewrite Hs. simpl.
  unfold dev_get_by_index. rewrite Hnd. simpl. rewrite lookup_insert_eq. simpl.
  replace (bool_decide (rx s = None) && bool_decide (tx s = None)) with false.
  2:{ destruct Hring as [[? ->]|[? ->]]; simpl; [done|by rewrite andb_false_r]. }
  destruct (Z.leb_spec (num_rx_queues nd) (sxdp_queue_id sxdp)); [lia|].
  apply Z.eqb_neq in Hflag. rewrite Hflag. simpl.
  rewrite Hnone. rewrite bool_decide_eq_false_2 by (by intros [? ?]).
  done.
Qed.

(** The handle is a socket; what bind answers depends on that socket. *)
Section handle.
Variables (so2 : Z) (sock2 : socket) (sk2 : Z) (s2 : xdp_sock).
Hypothesis Hflag : Z.land (sxdp_flags sxdp) XDP_SHARED_UMEM ≠ 0.
Hypothesis Hnone : umem s = None.
Hypothesis Hfd : k_fds k !! sxdp_shared_umem_fd sxdp = Some (FileSocket so2).
Hypothesis Hsock2 : k_sockets k !! so2 = Some sock2.
Hypothesis Hsk2 : sock_sk sock2 = Some sk2.
Hypothesis Hs2 : k_socks k !! sk2 = Some s2.

Lemma xsk_bind_foreign_family :
  sk_family s2 ≠ PF_XDP →
  ∃ k', xsk_bind k sock sxdp addr_len = Some (- ENOPROTOOPT, k') ∧
        k_socks k' = k_socks k ∧ k_umems k' = k_umems k.
Proof.
  intros Hforeign. rewrite xsk_bind_shared_lookup by done.
  unfold xsk_lookup_xsk_from_fd, sockfd_lookup. simpl.
  rewrite Hfd. simpl. rewrite Hsock2. simpl. rewrite Hsk2. simpl.
  rewrite Hs2. simpl. rewrite bool_decide_eq_true_2 by done. simpl.
  erewrite bind_out_unlock_err; [|simpl; apply lookup_insert_eq|by vm_compute].
  eexists. split; [reflexivity|]. done.
Qed.

Lemma xsk_bind_no_umem_to_inherit :
  sk_family s2 = PF_XDP → umem s2 = None →
  ∃ k', xsk_bind k sock sxdp addr_len = Some (- EBADF, k') ∧
        k_socks k' = k_socks k ∧ k_umems k' = k_umems k.
Proof.
  intros Hfamily Hno. rewrite xsk_bind_shared_lookup by done.
  unfold xsk_lookup_xsk_from_fd, sockfd_lookup. simpl.
  rewrite Hfd. simpl. rewrite Hsock2. simpl. rewrite Hsk2. simpl.
  rewrite Hs2. simpl. rewrite bool_decide_eq_false_2 by (by intros ?). simpl.
  rewrite Hsock2. simpl. rewrite Hsk2. simpl. rewrite Hs2. simpl. rewrite Hno.
  erewrite bind_out_unlock_err; [|simpl; apply lookup_insert_eq|by vm_compute].
  eexists. split; [reflexivity|]. done.
Qed.

Lemma xsk_bind_other_queue up :
  sk_family s2 = PF_XDP → umem s2 = Some up →
  dev s2 ≠ Some (sxdp_ifindex sxdp) ∨ queue_id s2 ≠ sxdp_queue_id sxdp →
  ∃ k', xsk_bind k sock sxdp addr_len = Some (- EINVAL, k') ∧
        k_socks k' = k_socks k ∧ k_umems k' = k_umems k.
Proof.
  intros Hfamily Hup Hother. rewrite xsk_bind_shared_lookup by done.
  unfold xsk_lookup_xsk_from_fd, sockfd_lookup. simpl.
  rewrite Hfd. simpl. rewrite Hsock2. simpl. rewrite Hsk2. simpl.
  rewrite Hs2. simpl. rewrite bool_decide_eq_false_2 by (by intros ?). simpl.
  rewrite Hsock2. simpl. rewrite Hsk2. simpl. rewrite Hs2. simpl. rewrite Hup.
  replace (bool_decide (dev s2 ≠ Some d)
           || bool_decide (queue_id s2 ≠ sxdp_queue_id sxdp)) with true.
  2:{ symmetry. apply orb_true_iff.
      destruct Hother; [left|right]; by apply bool_decide_eq_true_2. }
  erewrite bind_out_unlock_err; [|simpl; apply lookup_insert_eq|by vm_compute].
  eexists. split; [reflexivity|]. done.
Qed.
End handle.

Lemma xsk_bind_not_a_socket :
  Z.land (sxdp_flags sxdp) XDP_SHARED_UMEM ≠ 0 →
  umem s = None →
  (∀ so2, k_fds k !! sxdp_shared_umem_fd sxdp ≠ Some (FileSocket so2)) →
  ∃ k', xsk_bind k sock sxdp addr_len = Some (- ENOTSOCK, k') ∧
        k_socks k' = k_socks k ∧ k_umems k' = k_umems k.
Proof.
  intros Hflag Hnone Hfd. rewrite xsk_bind_shared_lookup by done.
  unfold xsk_lookup_xsk_from_fd, sockfd_lookup. simpl.
  destruct (k_fds k !! sxdp_shared_umem_fd sxdp) as [[so2|]|] eqn:Hlook;
    [by destruct (Hfd so2)| |]; simpl;
    (erewrite bind_out_unlock_err; [|simpl; apply lookup_insert_eq|by vm_compute]);
    eexists; (split; [reflexivity|]); done.
Qed.
End bind_prefix.

(** C5, as amended.  A shared-umem bind that reaches the handle lookup (valid
    address, existing device, a ring, a valid queue, no umem of its own)
    fails with noprotoopt, not invalid, when the handle designates a socket
    of another family; with badhandle when it designates a family socket
    without a umem; and with invalid when that socket has a umem but is
    bound to another device or queue.  The sockets and umems are left as
    they were. *)
Theorem xsk_bind_shared_handle_errors
    k sock sxdp addr_len so sk s nd so2 sock2 sk2 s2 :
  k_sockets k !! sock = Some so →
  sizeof_sockaddr_xdp ≤ u64 addr_len →
  sxdp_family sxdp = AF_XDP →
  sock_sk so = Some sk →
  k_socks k !! sk = Some s →
  k_devs k !! sxdp_ifindex sxdp = Some nd →
  is_Some (rx s) ∨ is_Some (tx s) →
  sxdp_queue_id sxdp < num_rx_queues nd →
  Z.land (sxdp_flags sxdp) XDP_SHARED_UMEM ≠ 0 →
  umem s = None →
  k_fds k !! sxdp_shared_umem_fd sxdp = Some (FileSocket so2) →
  k_sockets k !! so2 = Some sock2 →
  sock_sk sock2 = Some sk2 →
  k_socks k !! sk2 = Some s2 →
  (sk_family s2 ≠ PF_XDP →
   ∃ k', xsk_bind k sock sxdp addr_len = Some (- ENOPROTOOPT, k') ∧
         k_socks k' = k_socks k ∧ k_umems k' = k_umems k) ∧
  (sk_family s2 = PF_XDP → umem s2 = None →
   ∃ k', xsk_bind k sock sxdp addr_len = Some (- EBADF, k') ∧
         k_socks k' = k_socks k ∧ k_umems k' = k_umems k) ∧
  (∀ up, sk_family s2 = PF_XDP → umem s2 = Some up →
   dev s2 ≠ Some (sxdp_ifindex sxdp) ∨ queue_id s2 ≠ sxdp_queue_id sxdp →
   ∃ k', xsk_bind k sock sxdp addr_len = Some (- EINVAL, k') ∧
         k_socks k' = k_socks k ∧ k_umems k' = k_umems k).
Proof.
  intros Hso Hlen Hfam Hsk Hs Hnd Hring Hq Hflag Hnone Hfd Hsock2 Hsk2 Hs2.
  split; [|split].
  - intros Hforeign.
    by apply (xsk_bind_foreign_family k sock sxdp addr_len so sk s nd
                Hso Hlen Hfam Hsk Hs Hnd Hring Hq so2 sock2 sk2 s2).
  - intros Hfamily Hno.
    by apply (xsk_bind_no_umem_to_inherit k sock sxdp addr_len so sk s nd
                Hso Hlen Hfam Hsk Hs Hnd Hring Hq so2 sock2 sk2 s2).
  - intros up Hfamily Hup Hother.
    by apply (xsk_bind_other_queue k sock sxdp addr_len so sk s nd
                Hso Hlen Hfam Hsk Hs Hnd Hring Hq so2 sock2 sk2 s2
                Hflag Hnone Hfd Hsock2 Hsk2 Hs2 up).
Qed.

(** Side conditions at a concrete state are settled by evaluation. *)
Ltac by_evaluation :=
  first [ vm_compute; reflexivity | by vm_compute | left; by eexists ].

Lemma xsk_bind_shared_handle_errors_witness :
  (∃ k', xsk_bind Scenario.with_foreign Scenario.the_sock
           (Scenario.shared_addr Scenario.lo 4) 16 = Some (- ENOPROTOOPT, k') ∧
         k_socks k' = k_socks Scenario.with_foreign) ∧
  (∃ k', xsk_bind Scenario.with_foreign Scenario.the_sock
           (Scenario.shared_addr Scenario.lo 5) 16 = Some (- EBADF, k') ∧
         k_socks k' = k_socks Scenario.with_foreign).
Proof.
  split.
  - edestruct (xsk_bind_shared_handle_errors Scenario.with_foreign
                 Scenario.the_sock (Scenario.shared_addr Scenario.lo 4) 16)
      as [Hforeign _];
      [by_evaluation .. |].
    destruct Hforeign as (k' & Hk & Hsocks & _); [by vm_compute|].
    exists k'. split; [exact Hk | exact Hsocks].
  - edestruct (xsk_bind_shared_handle_errors Scenario.with_foreign
                 Scenario.the_sock (Scenario.shared_addr Scenario.lo 5) 16)
      as (_ & Hnoumem & _);
      [by_evaluation .. |].
    destruct Hnoumem as (k' & Hk & Hsocks & _); [reflexivity ..|].
    exists k'. split; [exact Hk | exact Hsocks].
Defined.

(** C5, as stated, fails: the handle designates an AF_INET socket and bind
    answers noprotoopt, which is not the invalid of a mismatched queue. *)
Lemma xsk_bind_foreign_handle_not_invalid :
  k_fds Scenario.with_foreign !! 4 = Some (FileSocket 21) ∧
  k_sockets Scenario.with_foreign !! 21 = Some (mk_socket (Some 11)) ∧
  sk_family <$> k_socks Scenario.with_foreign !! 11 = Some 2 ∧
  2 ≠ PF_XDP ∧
  (∃ k', xsk_bind Scenario.with_foreign Scenario.the_sock
           (Scenario.shared_addr Scenario.lo 4) 16 = Some (- ENOPROTOOPT, k')) ∧
  - ENOPROTOOPT ≠ - EINVAL.
Proof.
  repeat split; try by vm_compute.
  eexists. vm_compute. reflexivity.
Qed.

(** C9, as amended.  A bind that carries the SHARED_UMEM flag on a socket
    with a umem of its own always fails, and before any handle lookup: with
    nodev when the address is well-formed but its ifindex names no device,
    with invalid in every other case.  No descriptor is looked up, and the
    sockets and umems are left as they were. *)
Theorem xsk_bind_shared_with_own_umem k sock sxdp addr_len so sk s :
  k_sockets k !! sock = Some so →
  sock_sk so = Some sk →
  k_socks k !! sk = Some s →
  Z.land (sxdp_flags sxdp) XDP_SHARED_UMEM ≠ 0 →
  is_Some (umem s) →
  ∃ err k' l,
    xsk_bind k sock sxdp addr_len = Some (err, k') ∧
    (is_Some (k_devs k !! sxdp_ifindex sxdp) → err = - EINVAL) ∧
    (k_devs k !! sxdp_ifindex sxdp = None →
     sizeof_sockaddr_xdp ≤ u64 addr_len → sxdp_family sxdp = AF_XDP →
     err = - ENODEV) ∧
    (err = - EINVAL ∨ err = - ENODEV) ∧
    k_trace k' = k_trace k ++ l ∧
    (∀ fd, EvSockfdLookup fd ∉ l) ∧
    k_socks k' = k_socks k ∧ k_umems k' = k_umems k.
Proof.
  intros Hso Hsk Hs Hflag Hown. unfold xsk_bind. rewrite Hso. simpl.
  destruct (Z.ltb_spec (u64 addr_len) sizeof_sockaddr_xdp) as [Hshort|Hlen].
  { exists (- EINVAL), k, []. rewrite app_nil_r.
    repeat split; try done; [lia | by left | set_solver]. }
  destruct (decide (sxdp_family sxdp = AF_XDP)) as [Hfam|Hfam].
  2:{ rewrite bool_decide_eq_true_2 by done.
      exists (- EINVAL), k, []. rewrite app_nil_r.
      repeat split; try done; [by left | set_solver]. }
  rewrite bool_decide_eq_false_2 by (by intros ?).
  rewrite Hsk. simpl. rewrite Hs. simpl. unfold dev_get_by_index.
  destruct (k_devs k !! sxdp_ifindex sxdp) as [nd|] eqn:Hnd.
  2:{ exists (- ENODEV), k, []. rewrite app_nil_r.
      repeat split; try done; [by right | set_solver]. }
  simpl. rewrite lookup_insert_eq. simpl.
  assert (∀ k0 : kernel,
            k_devs k0 !! sxdp_ifindex sxdp
              = Some (mk_dev (dev_flags nd) (dev_mtu nd) (num_rx_queues nd)
                             (dev_refcnt nd + 1)) →
            k_trace k0 = k_trace k ++ [EvDevHold (sxdp_ifindex sxdp)] →
            k_socks k0 = k_socks k → k_umems k0 = k_umems k →
            ∃ err k' l,
              bind_out_unlock k0 (sxdp_ifindex sxdp) (- EINVAL) = Some (err, k') ∧
              (is_Some (Some nd) → err = - EINVAL) ∧
              (Some nd = None → sizeof_sockaddr_xdp ≤ u64 addr_len →
               sxdp_family sxdp = AF_XDP → err = - ENODEV) ∧
              (err = - EINVAL ∨ err = - ENODEV) ∧
              k_trace k' = k_trace k ++ l ∧
              (∀ fd, EvSockfdLookup fd ∉ l) ∧
              k_socks k' = k_socks k ∧ k_umems k' = k_umems k) as Hout.
  { intros k0 Hd0 Ht0 Hs0 Hu0.
    erewrite bind_out_unlock_err; [|exact Hd0|by vm_compute].
    eexists (- EINVAL), _,
            [EvDevHold (sxdp_ifindex sxdp); EvDevPut (sxdp_ifindex sxdp)].
    split; [reflexivity|]. simpl. rewrite Ht0, <- app_assoc.
    repeat split; try done; [by left|].
    intros fd Hin. by repeat (apply elem_of_cons in Hin as [?|Hin]; [done|]);
      apply elem_of_nil in Hin. }
  destruct (bool_decide (rx s = None) && bool_decide (tx s = None)).
  { apply Hout; simpl; try done. apply lookup_insert_eq. }
  destruct (num_rx_queues nd <=? sxdp_queue_id sxdp).
  { apply Hout; simpl; try done. apply lookup_insert_eq. }
  apply Z.eqb_neq in Hflag. rewrite Hflag. simpl.
  rewrite bool_decide_eq_true_2 by done.
  apply Hout; simpl; try done. apply lookup_insert_eq.
Qed.

Lemma xsk_bind_shared_with_own_umem_witness :
  ∃ k', xsk_bind Scenario.e1 Scenario.the_sock
          (Scenario.shared_addr Scenario.lo 3) 16 = Some (- EINVAL, k') ∧
        k_socks k' = k_socks Scenario.e1.
Proof.
  edestruct (xsk_bind_shared_with_own_umem Scenario.e1 Scenario.the_sock
               (Scenario.shared_addr Scenario.lo 3) 16)
    as (err & k' & l & Hk & Hdev & _ & _ & _ & _ & Hsocks & _);
    [vm_compute; reflexivity .. | by vm_compute | by eexists |].
  rewrite Hdev in Hk by (by eexists).
  exists k'. split; [exact Hk | exact Hsocks].
Defined.

(** C9, as stated, fails: the socket has its own umem and the address
    carries SHARED_UMEM, but ifindex 99 names no device and bind answers
    nodev. *)
Lemma xsk_bind_shared_own_umem_nodev :
  umem <$> k_socks Scenario.e1 !! Scenario.the_sk = Some (Some Scenario.the_umem) ∧
  Z.land (sxdp_flags (Scenario.shared_addr 99 3)) XDP_SHARED_UMEM ≠ 0 ∧
  xsk_bind Scenario.e1 Scenario.the_sock (Scenario.shared_addr 99 3) 16
    = Some (- ENODEV, Scenario.e1) ∧
  - ENODEV ≠ - EINVAL.
Proof. repeat split; by vm_compute. Qed.

(** ** Ring creation *)

Lemma xsk_init_queue_invalid {A} `{Inhabited A} a entries (queue : option (xsk_queue A)) :
  entries = 0 ∨ is_power_of_2 entries = false ∨ is_Some queue →
  xsk_init_queue a entries queue = (- EINVAL, queue).
Proof.
  intros Hbad. unfold xsk_init_queue.
  replace ((entries =? 0) || bool_decide (is_Some queue)
           || negb (is_power_of_2 entries)) with true; [done|].
  symmetry. destruct Hbad as [->|[->|Hq]].
  - done.
  - by rewrite orb_true_r.
  - by rewrite (bool_decide_eq_true_2 _ Hq), orb_true_r.
Qed.

Lemma xsk_init_queue_created {A} `{Inhabited A} entries :
  entries ≠ 0 → is_power_of_2 entries = true →
  ∃ q : xsk_queue A,
    xsk_init_queue true entries None = (0, Some q) ∧
    nentries q = entries ∧ ring_mask q = entries - 1 ∧
    length (ring_desc q) = Z.to_nat entries ∧ xskq_nb_avail q = 0.
Proof.
  intros Hnz Hpow. unfold xsk_init_queue, xskq_create.
  apply Z.eqb_neq in Hnz. rewrite Hnz, Hpow. simpl.
  eexists. split; [reflexivity|]. simpl. by rewrite length_replicate.
Qed.

Lemma put_sock_id k sk s : k_socks k !! sk = Some s → put_sock k sk s = k.
Proof.
  intros Hs. unfold put_sock, with_socks. rewrite insert_id by done.
  by destruct k.
Qed.

Lemma put_umem_id k up u : k_umems k !! up = Some u → put_umem k up u = k.
Proof.
  intros Hu. unfold put_umem, with_umems. rewrite insert_id by done.
  by destruct k.
Qed.

(** C7.  A ring-creation option whose requested capacity is zero or not a
    power of two, or whose ring already exists, fails with invalid and
    leaves the kernel state as it was: no ring is created.  FILL_RING and
    COMPLETION_RING fail with invalid, whatever the capacity, when the
    socket has no umem. *)
Theorem xsk_setsockopt_ring_invalid e k sock name optval optlen so sk s :
  k_sockets k !! sock = Some so →
  sock_sk so = Some sk →
  k_socks k !! sk = Some s →
  umem_ptr_ok k s →
  is_ring_option name = true →
  (∀ entries,
     ub_int optval = Some entries →
     bad_capacity entries ∨ target_ring_created k s name →
     xsk_setsockopt e k sock SOL_XDP name optval optlen = Some (- EINVAL, k)) ∧
  (name = XDP_UMEM_FILL_RING ∨ name = XDP_UMEM_COMPLETION_RING →
   umem s = None →
   xsk_setsockopt e k sock SOL_XDP name optval optlen = Some (- EINVAL, k)).
Proof.
  intros Hso Hsk Hs Hheap Hname. split.
  - intros entries Hval Hbad. unfold xsk_setsockopt. rewrite Hso. simpl.
    destruct name; try discriminate.
    + destruct (optlen <? 4); [done|]. rewrite Hval, Hsk. simpl.
      rewrite Hs. simpl.
      rewrite xsk_init_queue_invalid.
      * f_equal. f_equal. apply put_sock_id. rewrite Hs. by destruct s.
      * destruct Hbad as [[?|?]|?]; auto.
    + destruct (optlen <? 4); [done|]. rewrite Hval, Hsk. simpl.
      rewrite Hs. simpl.
      rewrite xsk_init_queue_invalid.
      * f_equal. f_equal. apply put_sock_id. rewrite Hs. by destruct s.
      * destruct Hbad as [[?|?]|?]; auto.
    + rewrite Hsk. simpl. rewrite Hs. simpl.
      destruct (umem s) as [up|] eqn:Hup; [|done]. rewrite Hval.
      destruct (Hheap up Hup) as [u Hu]. rewrite Hu. simpl.
      rewrite xsk_init_queue_invalid.
      * f_equal. f_equal. apply put_umem_id. rewrite Hu. by destruct u.
      * destruct Hbad as [[?|?]|(up' & u' & Hup' & Hu' & Hq)]; auto.
        right. right. congruence.
    + rewrite Hsk. simpl. rewrite Hs. simpl.
      destruct (umem s) as [up|] eqn:Hup; [|done]. rewrite Hval.
      destruct (Hheap up Hup) as [u Hu]. rewrite Hu. simpl.
      rewrite xsk_init_queue_invalid.
      * f_equal. f_equal. apply put_umem_id. rewrite Hu. by destruct u.
      * destruct Hbad as [[?|?]|(up' & u' & Hup' & Hu' & Hq)]; auto.
        right. right. congruence.
  - intros Hopt Hnone. unfold xsk_setsockopt. rewrite Hso. simpl.
    destruct Hopt as [-> | ->]; rewrite Hsk; simpl; rewrite Hs; simpl;
      by rewrite Hnone.
Qed.

Lemma umem_ptr_ok_created : umem_ptr_ok Scenario.created Scenario.fresh_xs.
Proof. intros up Hup. discriminate Hup. Qed.

Lemma umem_ptr_ok_bound u rxq txq mtu :
  umem_ptr_ok (Scenario.bound_with u rxq txq mtu)
    (mk_xs PF_XDP 1 false (Some Scenario.the_umem) (Some Scenario.lo) 0
           rxq txq 0).
Proof. intros up [= <-]. by eexists. Qed.

Lemma xsk_setsockopt_ring_invalid_witness :
  xsk_setsockopt Scenario.machine Scenario.created Scenario.the_sock SOL_XDP
                 XDP_RX_RING (Scenario.int_at 3) 4
    = Some (- EINVAL, Scenario.created) ∧
  xsk_setsockopt Scenario.machine Scenario.created Scenario.the_sock SOL_XDP
                 XDP_TX_RING (Scenario.int_at 0) 4
    = Some (- EINVAL, Scenario.created) ∧
  xsk_setsockopt Scenario.machine Scenario.e1 Scenario.the_sock SOL_XDP
                 XDP_RX_RING (Scenario.int_at 8) 4
    = Some (- EINVAL, Scenario.e1) ∧
  xsk_setsockopt Scenario.machine Scenario.e1 Scenario.the_sock SOL_XDP
                 XDP_UMEM_COMPLETION_RING (Scenario.int_at 8) 4
    = Some (- EINVAL, Scenario.e1) ∧
  xsk_setsockopt Scenario.machine Scenario.created Scenario.the_sock SOL_XDP
                 XDP_UMEM_FILL_RING (Scenario.int_at 8) 4
    = Some (- EINVAL, Scenario.created).
Proof.
  split; [|split; [|split; [|split]]].
  - edestruct (xsk_setsockopt_ring_invalid Scenario.machine Scenario.created
                 Scenario.the_sock XDP_RX_RING (Scenario.int_at 3) 4)
      as [Hbad _];
      [vm_compute; reflexivity .. | exact umem_ptr_ok_created | reflexivity |].
    apply (Hbad 3); [reflexivity|]. left. right. reflexivity.
  - edestruct (xsk_setsockopt_ring_invalid Scenario.machine Scenario.created
                 Scenario.the_sock XDP_TX_RING (Scenario.int_at 0) 4)
      as [Hbad _];
      [vm_compute; reflexivity .. | exact umem_ptr_ok_created | reflexivity |].
    apply (Hbad 0); [reflexivity|]. left. left. reflexivity.
  - edestruct (xsk_setsockopt_ring_invalid Scenario.machine Scenario.e1
                 Scenario.the_sock XDP_RX_RING (Scenario.int_at 8) 4)
      as [Hbad _];
      [vm_compute; reflexivity .. | apply umem_ptr_ok_bound | reflexivity |].
    apply (Hbad 8); [reflexivity|]. right. by eexists.
  - edestruct (xsk_setsockopt_ring_invalid Scenario.machine Scenario.e1
                 Scenario.the_sock XDP_UMEM_COMPLETION_RING
                 (Scenario.int_at 8) 4)
      as [Hbad _];
      [vm_compute; reflexivity .. | apply umem_ptr_ok_bound | reflexivity |].
    apply (Hbad 8); [reflexivity|]. right.
    exists Scenario.the_umem, Scenario.umem8. repeat split; by eexists.
  - edestruct (xsk_setsockopt_ring_invalid Scenario.machine Scenario.created
                 Scenario.the_sock XDP_UMEM_FILL_RING (Scenario.int_at 8) 4)
      as [_ Hnoumem];
      [vm_compute; reflexivity .. | exact umem_ptr_ok_created | reflexivity |].
    apply Hnoumem; [by left | reflexivity].
Defined.

(** The other side of C7: a power of two for a ring that is not there yet
    creates it. *)
Example xsk_setsockopt_rx_ring_created :
  ∃ k' q,
    xsk_setsockopt Scenario.machine Scenario.created Scenario.the_sock SOL_XDP
                   XDP_RX_RING (Scenario.int_at 8) 4 = Some (0, k') ∧
    rx <$> k_socks k' !! Scenario.the_sk = Some (Some q) ∧
    nentries q = 8 ∧ ring_mask q = 7 ∧ length (ring_desc q) = 8%nat.
Proof. eexists _, _. split; [vm_compute; reflexivity|]. by vm_compute. Qed.

(** ** Release *)

Lemma xdp_put_umem_result k p :
  (∀ up, p = Some up → is_Some (k_umems k !! up)) →
  ∃ k' l, xdp_put_umem k p = Some k' ∧
          k_trace k' = k_trace k ++ l ∧ Forall teardown_event l ∧
          k_sockets k' = k_sockets k ∧ k_devs k' = k_devs k ∧
          k_socks k' = k_socks k.
Proof.
  intros Hp. destruct p as [up|]; simpl.
  - destruct (Hp up eq_refl) as [u Hu]. rewrite Hu. simpl.
    destruct (users u - 1 =? 0).
    + eexists _, [EvUmemFree up]. split; [reflexivity|]. simpl.
      repeat split; try done. by repeat constructor.
    + eexists _, []. split; [reflexivity|]. simpl. rewrite app_nil_r.
      repeat split; try done.
  - exists k, []. rewrite app_nil_r. repeat split; try done.
Qed.

Lemma sock_put_result k sk s :
  k_socks k !! sk = Some s →
  umem_ptr_ok k s →
  ∃ k' l, sock_put k sk = Some k' ∧
          k_trace k' = k_trace k ++ l ∧ Forall teardown_event l ∧
          k_sockets k' = k_sockets k ∧ k_devs k' = k_devs k.
Proof.
  intros Hs Hheap. unfold sock_put. rewrite Hs. simpl.
  destruct (sk_refcnt s - 1 =? 0).
  - unfold xsk_destruct. rewrite Hs. simpl. destruct (sk_dead s); simpl.
    + destruct (xdp_put_umem_result
                  (put_sock k sk (set_tx (set_rx s None) None)) (umem s))
        as (k' & l & -> & Ht & Hl & Hss & Hd & _); [exact Hheap|].
      simpl. eexists _, (l ++ [EvSkFree sk]). split; [reflexivity|]. simpl.
      rewrite Ht, <- app_assoc. repeat split; try done.
      apply Forall_app. split; [done|]. by repeat constructor.
    + eexists _, [EvSkFree sk]. split; [reflexivity|]. simpl.
      repeat split; try done. by repeat constructor.
  - eexists _, []. split; [reflexivity|]. simpl. rewrite app_nil_r.
    repeat split; try done.
Qed.

(** C8.  Releasing a released socket returns 0 and changes nothing.  The
    first release of a bound socket returns 0, calls synchronize_net and
    only then gives up the device reference; nothing that follows in the
    teardown is another barrier or device release; the socket is released
    afterwards, so a second release changes nothing. *)
Theorem xsk_release_idempotent :
  (∀ k sock,
     k_sockets k !! sock = Some (mk_socket None) →
     xsk_release k sock = Some (0, k)) ∧
  (∀ k sock so sk s d nd,
     k_sockets k !! sock = Some so →
     sock_sk so = Some sk →
     k_socks k !! sk = Some s →
     dev s = Some d →
     k_devs k !! d = Some nd →
     umem_ptr_ok k s →
     ∃ k' rest,
       xsk_release k sock = Some (0, k') ∧
       k_trace k' = k_trace k ++ EvSynchronizeNet :: EvDevPut d :: rest ∧
       Forall teardown_event rest ∧
       k_devs k' !! d = Some (mk_dev (dev_flags nd) (dev_mtu nd)
                                     (num_rx_queues nd) (dev_refcnt nd - 1)) ∧
       k_sockets k' !! sock = Some (mk_socket None) ∧
       xsk_release k' sock = Some (0, k')).
Proof.
  assert (∀ k sock, k_sockets k !! sock = Some (mk_socket None) →
                    xsk_release k sock = Some (0, k)) as Hagain.
  { intros k sock Hso. unfold xsk_release. by rewrite Hso. }
  split; [exact Hagain|].
  intros k sock so sk s d nd Hso Hsk Hs Hd Hnd Hheap.
  unfold xsk_release. rewrite Hso. simpl. rewrite Hsk, Hs. simpl.
  rewrite Hd. rewrite bool_decide_eq_true_2 by (by eexists).
  unfold __xsk_release, dev_put. simpl. rewrite Hs. simpl. rewrite Hd. simpl.
  rewrite Hnd. simpl. rewrite Hs. simpl. rewrite lookup_insert_eq. simpl.
  match goal with
  | |- context [sock_put ?k0 sk] =>
      destruct (sock_put_result k0 sk
                  (set_sk_dead (set_dev s None) true))
        as (k' & l & Hput & Ht & Hl & Hss & Hdd)
  end.
  { simpl. apply lookup_insert_eq. }
  { intros up Hup. simpl in *. by apply Hheap. }
  rewrite Hput. simpl. exists k', (EvSockOrphan sk :: l).
  split; [reflexivity|]. rewrite Ht, Hdd, Hss. simpl.
  rewrite !lookup_insert_eq, <- !app_assoc. simpl.
  assert (k_sockets k' !! sock = Some (mk_socket None)) as Hreleased
    by (rewrite Hss; simpl; apply lookup_insert_eq).
  repeat split; try done.
  constructor; [|done]. by split.
Qed.

Lemma xsk_release_idempotent_witness :
  ∃ k' rest,
    xsk_release Scenario.e1 Scenario.the_sock = Some (0, k') ∧
    k_trace k' = EvSynchronizeNet :: EvDevPut Scenario.lo :: rest ∧
    xsk_release k' Scenario.the_sock = Some (0, k').
Proof.
  destruct xsk_release_idempotent as [_ Hfirst].
  edestruct (Hfirst Scenario.e1 Scenario.the_sock)
    as (k' & rest & Hk & Ht & _ & _ & _ & Hagain);
    [vm_compute; reflexivity .. | apply umem_ptr_ok_bound |].
  exists k', rest. split; [exact Hk|]. split; [exact Ht | exact Hagain].
Defined.

(** ** User-side rings: positions *)

Lemma uslot_succ mask pos i :
  uslot mask (u32 (pos + 1)) i = uslot mask pos (S i).
Proof.
  unfold uslot, u32. f_equal. f_equal.
  rewrite Zplus_mod_idemp_l. f_equal. lia.
Qed.

Section uslots.
Variables (mask : Z) (len : nat).
Hypothesis Hpow : pow2_ring mask len.
Hypothesis Hlen : Z.of_nat len < 2 ^ 32.

Lemma pow2_ring_mod :
  ∃ m, 0 ≤ m < 32 ∧ Z.of_nat len = 2 ^ m ∧
       (∀ x, Z.land x mask = x mod 2 ^ m) ∧
       (∀ x, Z.land (u32 x) mask = x mod 2 ^ m).
Proof.
  destruct Hpow as (m & Hm & -> & Hl). exists m.
  assert (m < 32) as Hm32.
  { apply (Z.pow_lt_mono_r_iff 2); lia. }
  repeat split; try done; try lia.
  - intros x. by apply Z.land_ones.
  - intros x. rewrite Z.land_ones by done. unfold u32.
    apply Z.mod_mod_divide.
    exists (2 ^ (32 - m)). rewrite <- Z.pow_add_r by lia. f_equal. lia.
Qed.

Lemma uslot_lt pos i : (uslot mask pos i < len)%nat.
Proof.
  destruct pow2_ring_mod as (m & Hm & Hl & _ & Hu). unfold uslot.
  rewrite Hu. pose proof (Z.mod_pos_bound (pos + Z.of_nat i) (2 ^ m)). lia.
Qed.

Lemma uslot_0 pos : uslot mask pos 0 = Z.to_nat (Z.land pos mask).
Proof.
  destruct pow2_ring_mod as (m & Hm & Hl & Hx & Hu). unfold uslot.
  by rewrite Hu, Hx, Z.add_0_r.
Qed.

Lemma uslot_inj pos i j :
  (i < len)%nat → (j < len)%nat → uslot mask pos i = uslot mask pos j → i = j.
Proof.
  destruct pow2_ring_mod as (m & Hm & Hl & _ & Hu). unfold uslot.
  rewrite !Hu. intros Hi Hj Heq.
  assert (0 < 2 ^ m) as Hpos by (apply Z.pow_pos_nonneg; lia).
  pose proof (Z.mod_pos_bound (pos + Z.of_nat i) (2 ^ m) Hpos).
  pose proof (Z.mod_pos_bound (pos + Z.of_nat j) (2 ^ m) Hpos).
  assert ((pos + Z.of_nat i) mod 2 ^ m = (pos + Z.of_nat j) mod 2 ^ m) as Hmod
    by lia.
  pose proof (Z.div_mod (pos + Z.of_nat i) (2 ^ m)).
  pose proof (Z.div_mod (pos + Z.of_nat j) (2 ^ m)).
  assert ((pos + Z.of_nat i) / 2 ^ m = (pos + Z.of_nat j) / 2 ^ m) by nia.
  nia.
Qed.
End uslots.

Section ring_write.
Context {A : Type} `{Inhabited A}.
Variable mask : Z.

Lemma ring_write_length (xs : list A) : ∀ pos arr,
  length (ring_write mask pos xs arr) = length arr.
Proof.
  induction xs as [|x xs IH]; intros pos arr; simpl; [done|].
  by rewrite IH, length_insert.
Qed.

(** Slots the writes do not reach are untouched. *)
Lemma ring_write_other (xs : list A) : ∀ pos arr (p : nat),
  pow2_ring mask (length arr) → Z.of_nat (length arr) < 2 ^ 32 →
  (∀ i, (i < length xs)%nat → p ≠ uslot mask pos i) →
  ring_write mask pos xs arr !! p = arr !! p.
Proof.
  induction xs as [|x xs IH]; intros pos arr p Hpow Hlen Hp; simpl; [done|].
  pose proof (uslot_0 mask (length arr) Hpow Hlen pos) as H0.
  rewrite IH.
  - apply list_lookup_insert_ne. rewrite <- H0.
    intros Heq. apply (Hp 0%nat); simpl; [lia|done].
  - by rewrite length_insert.
  - by rewrite length_insert.
  - intros i Hi. rewrite uslot_succ. apply Hp. simpl. lia.
Qed.

(** The [i]-th value written is at the [i]-th position, as long as the
    writes do not lap the ring. *)
Lemma ring_write_lookup (xs : list A) : ∀ pos arr (i : nat),
  pow2_ring mask (length arr) → Z.of_nat (length arr) < 2 ^ 32 →
  (length xs ≤ length arr)%nat →
  (i < length xs)%nat →
  ring_write mask pos xs arr !! uslot mask pos i = xs !! i.
Proof.
  induction xs as [|x xs IH]; intros pos arr i Hpow Hlen Hfit Hi; simpl in *;
    [lia|].
  pose proof (uslot_0 mask (length arr) Hpow Hlen pos) as H0.
  pose proof (uslot_lt mask (length arr) Hpow Hlen pos 0) as Hlt.
  destruct i as [|i].
  - rewrite ring_write_other.
    + rewrite H0. apply list_lookup_insert_eq. by rewrite <- H0.
    + by rewrite length_insert.
    + by rewrite length_insert.
    + intros j Hj. rewrite uslot_succ. intros Heq.
      apply (uslot_inj mask (length arr)) in Heq; try done; lia.
  - rewrite <- uslot_succ. apply IH; rewrite ?length_insert; try done; lia.
Qed.

(** What is written is what is read back from the same position. *)
Lemma ring_read_write (xs : list A) pos arr :
  pow2_ring mask (length arr) → Z.of_nat (length arr) < 2 ^ 32 →
  (length xs ≤ length arr)%nat →
  ring_read mask pos (length xs) (ring_write mask pos xs arr) = xs.
Proof.
  intros Hpow Hlen Hfit. apply list_eq. intros i. unfold ring_read.
  rewrite list_lookup_fmap.
  destruct (decide (i < length xs)%nat) as [Hi|Hi].
  - rewrite lookup_seq_lt by done. simpl.
    pose proof (ring_write_lookup xs pos arr i Hpow Hlen Hfit Hi) as Hw.
    destruct (xs !! i) as [x|] eqn:Hx.
    + by rewrite (list_lookup_total_correct _ _ _ Hw).
    + apply lookup_ge_None in Hx. lia.
  - rewrite lookup_seq_ge by lia. simpl. symmetry. apply lookup_ge_None. lia.
Qed.
End ring_write.

(** ** User-side rings: the producer helpers *)

Lemma u32_add_succ p n : u32 (u32 (p + 1) + n) = u32 (p + (n + 1)).
Proof. unfold u32. rewrite Zplus_mod_idemp_l. f_equal. lia. Qed.

(** xq_nb_free touches nothing but the cached consumer. *)
Lemma xq_nb_free_frame uq n :
  cached_prod (xq_nb_free uq n).2 = cached_prod uq ∧
  mask (xq_nb_free uq n).2 = mask uq ∧
  size (xq_nb_free uq n).2 = size uq ∧
  ring (xq_nb_free uq n).2 = ring uq.
Proof. unfold xq_nb_free. by destruct (n <=? _). Qed.

Lemma xq_enq_tx_only_loop_spec n : ∀ i uq,
  pow2_ring (mask uq) (length (rxtx_desc (ring uq))) →
  Z.of_nat (length (rxtx_desc (ring uq))) < 2 ^ 32 →
  0 ≤ i → i + Z.of_nat n < 2 ^ 32 →
  rxtx_desc (ring (xq_enq_tx_only_loop n i uq))
    = ring_write (mask uq) (cached_prod uq)
        ((λ j : nat,
            mk_desc (u32 (Z.of_nat (uslot (mask uq) (cached_prod uq) j)
                          + (i + Z.of_nat j)))
                    (u32 (sizeof_pkt_data - 1)) 0) <$> seq 0 n)
        (rxtx_desc (ring uq)) ∧
  cached_prod (xq_enq_tx_only_loop n i uq) = Nat.iter n (λ p, u32 (p + 1)) (cached_prod uq) ∧
  cached_cons (xq_enq_tx_only_loop n i uq) = cached_cons uq ∧
  mask (xq_enq_tx_only_loop n i uq) = mask uq ∧
  size (xq_enq_tx_only_loop n i uq) = size uq ∧
  ptrs_consumer (ring (xq_enq_tx_only_loop n i uq)) = ptrs_consumer (ring uq).
Proof.
  induction n as [|n IH]; intros i uq Hpow Hlen Hi Hn; [done|].
  cbn [xq_enq_tx_only_loop seq fmap list_fmap ring_write].
  destruct (IH (u32 (i + 1))
              (mk_uqueue (u32 (cached_prod uq + 1)) (cached_cons uq) (mask uq)
                 (size uq)
                 (mk_rxtx_ring (ptrs_producer (ring uq)) (ptrs_consumer (ring uq))
                    (<[Z.to_nat (Z.land (cached_prod uq) (mask uq)) :=
                         mk_desc (u32 (Z.land (cached_prod uq) (mask uq) + i))
                                 (u32 (sizeof_pkt_data - 1)) 0]>
                       (rxtx_desc (ring uq))))))
    as (Hd & Hp & Hc & Hm & Hs & Hr); simpl.
  { by rewrite length_insert. }
  { by rewrite length_insert. }
  { pose proof (u32_range (i + 1)). lia. }
  { rewrite u32_small; lia. }
  simpl in *. rewrite Hd, Hp, Hc, Hm, Hs, Hr. clear Hd Hp Hc Hm Hs Hr IH.
  repeat split; try done.
  - f_equal.
    + rewrite <- fmap_S_seq, <- list_fmap_compose. apply list_fmap_ext.
      intros j x _. simpl. rewrite uslot_succ. f_equal. f_equal.
      rewrite (u32_small (i + 1)) by lia. lia.
    + f_equal. f_equal.
      pose proof (uslot_0 _ _ Hpow Hlen (cached_prod uq)) as H0.
      destruct (pow2_ring_mod _ _ Hpow Hlen) as (m & Hm & _ & Hx & _).
      rewrite H0, Z2Nat.id, Z.add_0_r; [done|].
      rewrite Hx. apply Z.mod_pos_bound. apply Z.pow_pos_nonneg; lia.
  - apply (Nat.iter_swap n _ (λ p, u32 (p + 1)) (cached_prod uq)).
Qed.

Lemma iter_u32_succ n p : 0 ≤ p < 2 ^ 32 →
  Nat.iter n (λ p, u32 (p + 1)) p = u32 (p + Z.of_nat n).
Proof.
  induction n as [|n IH]; intros Hp; simpl.
  - by rewrite Z.add_0_r, u32_small.
  - rewrite IH by done. unfold u32. rewrite Zplus_mod_idemp_l. f_equal. lia.
Qed.

(** xq_enq_tx_only never looks at the frame index it is given: two calls
    that differ in [idx] only give the same result.  When the ring has [n]
    free slots, the descriptor of the [j]-th slot written has offset 0, the
    length of the packet template (60) and, as its frame index, the slot's
    own number plus [j]. *)
Theorem xq_enq_tx_only_ignores_idx :
  (∀ uq idx idx' n, xq_enq_tx_only uq idx n = xq_enq_tx_only uq idx' n) ∧
  (∀ uq idx n,
     uqueue_wf uq → 0 ≤ n ≤ size uq → n ≤ (xq_nb_free uq n).1 →
     ∃ uq',
       xq_enq_tx_only uq idx n = (0, uq') ∧
       ∀ j : nat, Z.of_nat j < n →
         rxtx_desc (ring uq') !! uslot (mask uq) (cached_prod uq) j
           = Some (mk_desc
                     (u32 (Z.of_nat (uslot (mask uq) (cached_prod uq) j)
                           + Z.of_nat j))
                     60 0)).
Proof.
  split; [done|].
  intros uq idx n (Hpow & Hsize & Hlen) Hn Hfree. unfold xq_enq_tx_only.
  destruct (xq_nb_free_frame uq n) as (Hcp & Hm & Hs & Hr).
  destruct (xq_nb_free uq n) as [nfree uq1] eqn:Hnf. simpl in *.
  destruct (Z.ltb_spec nfree n); [lia|].
  eexists. split; [reflexivity|]. intros j Hj. simpl.
  destruct (xq_enq_tx_only_loop_spec (Z.to_nat n) 0 uq1) as (Hd & _);
    rewrite ?Hm, ?Hr; try done; try lia.
  rewrite Hd, Hm, Hcp, Hr.
  rewrite ring_write_lookup; rewrite ?length_fmap, ?length_seq; try done; try lia.
  rewrite list_lookup_fmap, lookup_seq_lt by lia. simpl.
  by rewrite Z.add_0_l.
Qed.

Lemma xq_enq_tx_only_ignores_idx_witness :
  ∃ uq',
    xq_enq_tx_only
      (mk_uqueue 6 10 3 4 (mk_rxtx_ring 6 6 (replicate 4 (mk_desc 0 0 0))))
      1000 2 = (0, uq') ∧
    rxtx_desc (ring uq') !! 2%nat = Some (mk_desc 2 60 0) ∧
    rxtx_desc (ring uq') !! 3%nat = Some (mk_desc 4 60 0).
Proof.
  destruct xq_enq_tx_only_ignores_idx as [_ Hslots].
  destruct (Hslots
              (mk_uqueue 6 10 3 4 (mk_rxtx_ring 6 6 (replicate 4 (mk_desc 0 0 0))))
              1000 2) as (uq' & Hk & Hj).
  - split; [exists 2; by vm_compute | by vm_compute].
  - by vm_compute.
  - by vm_compute.
  - exists uq'. split; [exact Hk|]. split.
    + apply (Hj 0%nat). by vm_compute.
    + apply (Hj 1%nat). by vm_compute.
Defined.

Lemma take_drop_cons {A} (l : list A) (i n : nat) x :
  l !! i = Some x → take (S n) (drop i l) = x :: take n (drop (S i) l).
Proof.
  intros Hx. rewrite (drop_S l x i Hx). done.
Qed.

Lemma xq_enq_loop_spec n : ∀ i descs uq,
  0 ≤ i → i + Z.of_nat n < 2 ^ 32 →
  (Z.to_nat i + n ≤ length descs)%nat →
  rxtx_desc (ring (xq_enq_loop n i descs uq))
    = ring_write (mask uq) (cached_prod uq)
        (take n (drop (Z.to_nat i) descs)) (rxtx_desc (ring uq)) ∧
  cached_prod (xq_enq_loop n i descs uq)
    = Nat.iter n (λ p, u32 (p + 1)) (cached_prod uq) ∧
  cached_cons (xq_enq_loop n i descs uq) = cached_cons uq ∧
  mask (xq_enq_loop n i descs uq) = mask uq ∧
  size (xq_enq_loop n i descs uq) = size uq ∧
  ptrs_consumer (ring (xq_enq_loop n i descs uq)) = ptrs_consumer (ring uq).
Proof.
  induction n as [|n IH]; intros i descs uq Hi Hn Hlen; [done|].
  cbn [xq_enq_loop].
  destruct (lookup_lt_is_Some_2 descs (Z.to_nat i)) as [x Hx]; [lia|].
  rewrite (list_lookup_total_correct _ _ _ Hx).
  rewrite (take_drop_cons _ _ _ _ Hx). cbn [ring_write].
  match goal with
  | |- context [xq_enq_loop n ?i1 descs ?uq1] =>
      destruct (IH i1 descs uq1) as (Hd & Hp & Hc & Hm & Hs & Hr)
  end.
  { pose proof (u32_range (i + 1)). lia. }
  { rewrite u32_small; lia. }
  { rewrite u32_small by lia. lia. }
  simpl in *. rewrite Hd, Hp, Hc, Hm, Hs, Hr. clear Hd Hp Hc Hm Hs Hr IH.
  rewrite (u32_small (i + 1)) by lia.
  replace (Z.to_nat (i + 1)) with (S (Z.to_nat i)) by lia.
  repeat split; try done.
  - by destruct x.
  - apply (Nat.iter_swap n _ (λ p, u32 (p + 1)) (cached_prod uq)).
Qed.

Lemma umem_nb_free_frame q n :
  u_cached_prod (umem_nb_free q n).2 = u_cached_prod q ∧
  u_mask (umem_nb_free q n).2 = u_mask q ∧
  u_size (umem_nb_free q n).2 = u_size q ∧
  u_ring (umem_nb_free q n).2 = u_ring q.
Proof. unfold umem_nb_free. by destruct (n <=? _). Qed.

Lemma umem_fill_loop_spec n : ∀ i d fq,
  0 ≤ i → i + Z.of_nat n < 2 ^ 32 →
  (Z.to_nat i + n ≤ length d)%nat →
  umem_desc (u_ring (umem_fill_loop n i d fq))
    = ring_write (u_mask fq) (u_cached_prod fq)
        (take n (drop (Z.to_nat i) d)) (umem_desc (u_ring fq)) ∧
  u_cached_prod (umem_fill_loop n i d fq)
    = Nat.iter n (λ p, u32 (p + 1)) (u_cached_prod fq) ∧
  u_cached_cons (umem_fill_loop n i d fq) = u_cached_cons fq ∧
  u_mask (umem_fill_loop n i d fq) = u_mask fq ∧
  u_size (umem_fill_loop n i d fq) = u_size fq ∧
  uptrs_consumer (u_ring (umem_fill_loop n i d fq)) = uptrs_consumer (u_ring fq).
Proof.
  induction n as [|n IH]; intros i d fq Hi Hn Hlen; [done|].
  cbn [umem_fill_loop].
  destruct (lookup_lt_is_Some_2 d (Z.to_nat i)) as [x Hx]; [lia|].
  rewrite (list_lookup_total_correct _ _ _ Hx).
  rewrite (take_drop_cons _ _ _ _ Hx). cbn [ring_write].
  match goal with
  | |- context [umem_fill_loop n ?i1 d ?fq1] =>
      destruct (IH i1 d fq1) as (Hd & Hp & Hc & Hm & Hs & Hr)
  end.
  { pose proof (u32_range (i + 1)). lia. }
  { rewrite u32_small; lia. }
  { rewrite u32_small by lia. lia. }
  simpl in *. rewrite Hd, Hp, Hc, Hm, Hs, Hr. clear Hd Hp Hc Hm Hs Hr IH.
  rewrite (u32_small (i + 1)) by lia.
  replace (Z.to_nat (i + 1)) with (S (Z.to_nat i)) by lia.
  repeat split; try done.
  apply (Nat.iter_swap n _ (λ p, u32 (p + 1)) (u_cached_prod fq)).
Qed.

(** ** User-side rings: the consumer helpers *)

Lemma ring_read_succ {A} `{Inhabited A} mask len pos n (arr : list A) :
  pow2_ring mask len → Z.of_nat len < 2 ^ 32 →
  ring_read mask pos (S n) arr
    = arr !!! Z.to_nat (Z.land pos mask) :: ring_read mask (u32 (pos + 1)) n arr.
Proof.
  intros Hpow Hlen. unfold ring_read. cbn [seq fmap list_fmap].
  rewrite (uslot_0 mask len) by done. f_equal.
  rewrite <- fmap_S_seq, <- list_fmap_compose. apply list_fmap_ext.
  intros j x _. simpl. by rewrite uslot_succ.
Qed.

Lemma xq_deq_loop_spec n : ∀ uq,
  pow2_ring (mask uq) (length (rxtx_desc (ring uq))) →
  Z.of_nat (length (rxtx_desc (ring uq))) < 2 ^ 32 →
  0 ≤ cached_cons uq < 2 ^ 32 →
  xq_deq_loop n uq
    = (ring_read (mask uq) (cached_cons uq) n (rxtx_desc (ring uq)),
       mk_uqueue (cached_prod uq) (u32 (cached_cons uq + Z.of_nat n))
                 (mask uq) (size uq) (ring uq)).
Proof.
  induction n as [|n IH]; intros uq Hpow Hlen Hc.
  - simpl. rewrite Z.add_0_r, u32_small by done. by destruct uq.
  - cbn [xq_deq_loop]. rewrite IH; simpl; try done; [|apply u32_range].
    rewrite (ring_read_succ _ _ _ _ _ Hpow Hlen). f_equal. f_equal.
    unfold u32. rewrite Zplus_mod_idemp_l. f_equal. lia.
Qed.

Lemma umem_complete_loop_spec n : ∀ cq,
  pow2_ring (u_mask cq) (length (umem_desc (u_ring cq))) →
  Z.of_nat (length (umem_desc (u_ring cq))) < 2 ^ 32 →
  0 ≤ u_cached_cons cq < 2 ^ 32 →
  umem_complete_loop n cq
    = (ring_read (u_mask cq) (u_cached_cons cq) n (umem_desc (u_ring cq)),
       mk_umem_uqueue (u_cached_prod cq) (u32 (u_cached_cons cq + Z.of_nat n))
                      (u_mask cq) (u_size cq) (u_ring cq)).
Proof.
  induction n as [|n IH]; intros cq Hpow Hlen Hc.
  - simpl. rewrite Z.add_0_r, u32_small by done. by destruct cq.
  - cbn [umem_complete_loop]. rewrite IH; simpl; try done; [|apply u32_range].
    rewrite (ring_read_succ _ _ _ _ _ Hpow Hlen). f_equal. f_equal.
    unfold u32. rewrite Zplus_mod_idemp_l. f_equal. lia.
Qed.

(** xq_enq is all or nothing: it answers 0 or -ENOSPC, the latter exactly
    when xq_nb_free reports fewer than [ndescs] free slots, and then the
    shared ring (slots, producer, consumer) and the cached producer are as
    before. *)
Theorem xq_enq_all_or_nothing uq descs ndescs :
  ((xq_enq uq descs ndescs).1 = 0 ∧ ndescs ≤ (xq_nb_free uq ndescs).1) ∨
  ((xq_enq uq descs ndescs).1 = - ENOSPC ∧
   (xq_nb_free uq ndescs).1 < ndescs ∧
   ring (xq_enq uq descs ndescs).2 = ring uq ∧
   cached_prod (xq_enq uq descs ndescs).2 = cached_prod uq).
Proof.
  unfold xq_enq. destruct (xq_nb_free_frame uq ndescs) as (Hcp & _ & _ & Hr).
  destruct (xq_nb_free uq ndescs) as [nfree uq1]. simpl in *.
  destruct (Z.ltb_spec nfree ndescs); simpl; [right|left]; done.
Qed.

(** When xq_nb_free reports room, xq_enq returns 0, publishes a producer
    advanced by [ndescs], leaves the consumer alone and stores the caller's
    descriptors in order from the old producer position on; every other
    slot keeps its content. *)
Theorem xq_enq_fifo uq descs ndescs :
  uqueue_wf uq →
  0 ≤ cached_prod uq < 2 ^ 32 →
  0 ≤ ndescs ≤ size uq →
  (Z.to_nat ndescs ≤ length descs)%nat →
  ndescs ≤ (xq_nb_free uq ndescs).1 →
  ∃ uq',
    xq_enq uq descs ndescs = (0, uq') ∧
    ptrs_producer (ring uq') = u32 (cached_prod uq + ndescs) ∧
    cached_prod uq' = u32 (cached_prod uq + ndescs) ∧
    ptrs_consumer (ring uq') = ptrs_consumer (ring uq) ∧
    mask uq' = mask uq ∧ size uq' = size uq ∧
    length (rxtx_desc (ring uq')) = length (rxtx_desc (ring uq)) ∧
    ring_read (mask uq) (cached_prod uq) (Z.to_nat ndescs) (rxtx_desc (ring uq'))
      = take (Z.to_nat ndescs) descs ∧
    (∀ p : nat,
       (∀ j, (j < Z.to_nat ndescs)%nat → p ≠ uslot (mask uq) (cached_prod uq) j) →
       rxtx_desc (ring uq') !! p = rxtx_desc (ring uq) !! p).
Proof.
  intros (Hpow & Hsize & Hlen) Hcp Hn Hdescs Hfree. unfold xq_enq.
  destruct (xq_nb_free_frame uq ndescs) as (Hcp1 & Hm & Hs & Hr).
  destruct (xq_nb_free uq ndescs) as [nfree uq1]. simpl in *.
  destruct (Z.ltb_spec nfree ndescs); [lia|].
  destruct (xq_enq_loop_spec (Z.to_nat ndescs) 0 descs uq1)
    as (Hd & Hp & Hc & Hm' & Hs' & Hr'); try lia.
  eexists. split; [reflexivity|]. simpl.
  rewrite Hd, Hp, Hm', Hs', Hr', Hm, Hs, Hr, Hcp1, iter_u32_succ by done.
  rewrite Z2Nat.id by lia. simpl.
  assert (length (take (Z.to_nat ndescs) descs) = Z.to_nat ndescs) as Htake
    by (rewrite length_take; lia).
  repeat split; try done.
  - by rewrite ring_write_length.
  - rewrite <- Htake at 1. apply ring_read_write; try done; [lia..].
  - intros p Hp'. apply ring_write_other; [done|lia|].
    intros j Hj. apply Hp'. rewrite length_take in Hj. lia.
Qed.

Lemma xq_enq_fifo_witness :
  ∃ uq',
    xq_enq (mk_uqueue 6 10 3 4 (mk_rxtx_ring 6 6 (replicate 4 (mk_desc 0 0 0))))
           [mk_desc 7 64 0; mk_desc 9 100 0] 2 = (0, uq') ∧
    ptrs_producer (ring uq') = 8 ∧
    ring_read 3 6 2 (rxtx_desc (ring uq')) = [mk_desc 7 64 0; mk_desc 9 100 0].
Proof.
  destruct (xq_enq_fifo
              (mk_uqueue 6 10 3 4 (mk_rxtx_ring 6 6 (replicate 4 (mk_desc 0 0 0))))
              [mk_desc 7 64 0; mk_desc 9 100 0] 2)
    as (uq' & Hk & Hp & _ & _ & _ & _ & _ & Hread & _).
  - split; [exists 2; by vm_compute | by vm_compute].
  - by vm_compute.
  - by vm_compute.
  - vm_compute. lia.
  - by vm_compute.
  - exists uq'. split; [exact Hk|]. split; [exact Hp | exact Hread].
Defined.

(** xq_nb_avail, the first step of xq_deq: the count the cached view gives,
    refreshed from the ring's producer when the view is empty, capped by
    the request. *)
Lemma xq_nb_avail_spec uq n :
  xq_nb_avail uq n
    = (Z.min n (if u32 (cached_prod uq - cached_cons uq) =? 0
                then u32 (ptrs_producer (ring uq) - cached_cons uq)
                else u32 (cached_prod uq - cached_cons uq)),
       if u32 (cached_prod uq - cached_cons uq) =? 0
       then mk_uqueue (ptrs_producer (ring uq)) (cached_cons uq)
                      (mask uq) (size uq) (ring uq)
       else uq).
Proof.
  unfold xq_nb_avail. destruct (u32 (cached_prod uq - cached_cons uq) =? 0);
    simpl; f_equal;
    match goal with
    | |- (if ?a <? ?b then _ else _) = _ => destruct (Z.ltb_spec a b); lia
    end.
Qed.

(** xq_deq hands out the oldest entries in ring order: as many as are
    available, at most [ndescs]; it advances the cached consumer by that
    count and publishes it when the count is positive.  On an empty ring
    it returns 0 and does not write to the shared ring. *)
Theorem xq_deq_oldest uq ndescs :
  uqueue_wf uq →
  0 ≤ cached_cons uq < 2 ^ 32 →
  0 ≤ ndescs < 2 ^ 31 →
  ∃ d uq',
    xq_deq uq ndescs = ((xq_nb_avail uq ndescs).1, d, uq') ∧
    0 ≤ (xq_nb_avail uq ndescs).1 ≤ ndescs ∧
    d = ring_read (mask uq) (cached_cons uq)
          (Z.to_nat (xq_nb_avail uq ndescs).1) (rxtx_desc (ring uq)) ∧
    cached_cons uq' = u32 (cached_cons uq + (xq_nb_avail uq ndescs).1) ∧
    rxtx_desc (ring uq') = rxtx_desc (ring uq) ∧
    ptrs_producer (ring uq') = ptrs_producer (ring uq) ∧
    (0 < (xq_nb_avail uq ndescs).1 →
     ptrs_consumer (ring uq') = u32 (cached_cons uq + (xq_nb_avail uq ndescs).1)) ∧
    ((xq_nb_avail uq ndescs).1 = 0 → d = [] ∧ ring uq' = ring uq).
Proof.
  intros (Hpow & Hsize & Hlen) Hcc Hn. unfold xq_deq.
  rewrite (u32_small ndescs) by lia.
  rewrite xq_nb_avail_spec. simpl.
  set (avail := Z.min ndescs _).
  set (uq1 := if _ =? 0 then _ else uq).
  assert (0 ≤ avail ≤ ndescs) as Havail.
  { subst avail. destruct (_ =? 0);
      [pose proof (u32_range (ptrs_producer (ring uq) - cached_cons uq))
      |pose proof (u32_range (cached_prod uq - cached_cons uq))]; lia. }
  assert (cached_cons uq1 = cached_cons uq ∧ mask uq1 = mask uq ∧
          ring uq1 = ring uq) as (Hc1 & Hm1 & Hr1)
    by (subst uq1; by destruct (_ =? 0)).
  assert (s32 avail = avail) as ->.
  { unfold s32. rewrite Z.mod_small; lia. }
  rewrite xq_deq_loop_spec; rewrite ?Hc1, ?Hm1, ?Hr1; try done; [|lia].
  rewrite Z2Nat.id by lia.
  destruct (Z.ltb_spec 0 avail).
  - eexists _, _. split; [reflexivity|]. simpl.
    repeat split; try done; lia.
  - eexists _, _. split; [reflexivity|]. simpl.
    repeat split; try done; try lia.
    assert (avail = 0) as -> by lia. done.
Qed.

Lemma xq_deq_oldest_witness :
  ∃ uq',
    xq_deq (mk_uqueue 5 5 3 4
              (mk_rxtx_ring 7 5 [mk_desc 4 0 0; mk_desc 5 64 0;
                                 mk_desc 6 64 0; mk_desc 7 0 0]))
           16 = (2, [mk_desc 5 64 0; mk_desc 6 64 0], uq') ∧
    ptrs_consumer (ring uq') = 7.
Proof.
  destruct (xq_deq_oldest
              (mk_uqueue 5 5 3 4
                 (mk_rxtx_ring 7 5 [mk_desc 4 0 0; mk_desc 5 64 0;
                                    mk_desc 6 64 0; mk_desc 7 0 0])) 16)
    as (d & uq' & Hk & _ & Hd & _ & _ & _ & Hc & _).
  - split; [exists 2; by vm_compute | by vm_compute].
  - by vm_compute.
  - by vm_compute.
  - exists uq'. split.
    + rewrite Hk, Hd. reflexivity.
    + apply Hc. by vm_compute.
Defined.

Lemma u32_add_sub p n : 0 ≤ n < 2 ^ 32 → u32 (u32 (p + n) - p) = n.
Proof.
  intros Hn. unfold u32. rewrite Zminus_mod_idemp_l.
  replace (p + n - p) with n by lia. by apply Z.mod_small.
Qed.

(** What xq_enq puts on a ring, xq_deq takes off it: a consumer standing at
    the position the producer started from dequeues exactly the enqueued
    descriptors, in order. *)
Theorem xq_enq_deq_round_trip uq descs ndescs :
  uqueue_wf uq →
  0 ≤ cached_prod uq < 2 ^ 32 →
  0 ≤ ndescs ≤ size uq →
  ndescs < 2 ^ 31 →
  length descs = Z.to_nat ndescs →
  ndescs ≤ (xq_nb_free uq ndescs).1 →
  ∃ uq' cv',
    xq_enq uq descs ndescs = (0, uq') ∧
    xq_deq (mk_uqueue (cached_prod uq) (cached_prod uq) (mask uq) (size uq)
                      (ring uq')) ndescs
      = (ndescs, descs, cv').
Proof.
  intros Hwf Hcp Hn Hint Hlen Hfree.
  destruct (xq_enq_fifo uq descs ndescs Hwf Hcp Hn) as
    (uq' & Henq & Hprod & _ & _ & _ & _ & Hlen' & Hread & _); [lia|done|].
  destruct Hwf as (Hpow & Hsize & Hlt).
  set (cv := mk_uqueue (cached_prod uq) (cached_prod uq) (mask uq) (size uq)
                       (ring uq')).
  destruct (xq_deq_oldest cv ndescs) as (d & cv' & Hdeq & _ & Hd & _);
    [|done|lia|].
  { subst cv. unfold uqueue_wf. simpl. by rewrite Hlen'. }
  assert ((xq_nb_avail cv ndescs).1 = ndescs) as Havail.
  { rewrite xq_nb_avail_spec. subst cv. simpl.
    replace (cached_prod uq - cached_prod uq) with 0 by lia.
    change (u32 0 =? 0) with true. cbv iota.
    rewrite Hprod, u32_add_sub by lia. lia. }
  rewrite Havail in *. exists uq', cv'. split; [done|].
  subst cv. rewrite Hdeq, Hd. simpl. rewrite Hread.
  by rewrite <- Hlen, firstn_all.
Qed.

Lemma xq_enq_deq_round_trip_witness :
  ∃ uq' cv',
    xq_enq (mk_uqueue 6 10 3 4 (mk_rxtx_ring 6 6 (replicate 4 (mk_desc 0 0 0))))
           [mk_desc 7 64 0; mk_desc 9 100 0] 2 = (0, uq') ∧
    xq_deq (mk_uqueue 6 6 3 4 (ring uq')) 2
      = (2, [mk_desc 7 64 0; mk_desc 9 100 0], cv').
Proof.
  apply (xq_enq_deq_round_trip
           (mk_uqueue 6 10 3 4 (mk_rxtx_ring 6 6 (replicate 4 (mk_desc 0 0 0))))
           [mk_desc 7 64 0; mk_desc 9 100 0] 2).
  - split; [exists 2; by vm_compute | by vm_compute].
  - by vm_compute.
  - by vm_compute.
  - by vm_compute.
  - reflexivity.
  - by vm_compute.
Defined.

(** ** User-side rings: fill and completion *)

(** umem_fill_to_kernel is all or nothing.  It answers -ENOSPC, leaving the
    shared ring and the cached producer alone, exactly when umem_nb_free
    reports fewer than [nb] free slots; a request of 2^32 entries or more is
    always refused.  Otherwise it returns 0, publishes a producer advanced
    by [nb], leaves the consumer alone and stores the caller's indices in
    order from the old producer position on. *)
Theorem umem_fill_to_kernel_fifo fq d nb :
  0 ≤ nb →
  ((umem_nb_free fq (u32 nb)).1 < nb →
   (umem_fill_to_kernel fq d nb).1 = - ENOSPC ∧
   u_ring (umem_fill_to_kernel fq d nb).2 = u_ring fq ∧
   u_cached_prod (umem_fill_to_kernel fq d nb).2 = u_cached_prod fq) ∧
  (2 ^ 32 ≤ nb → (umem_fill_to_kernel fq d nb).1 = - ENOSPC) ∧
  (umem_uqueue_wf fq →
   0 ≤ u_cached_prod fq < 2 ^ 32 →
   nb ≤ u_size fq →
   (Z.to_nat nb ≤ length d)%nat →
   nb ≤ (umem_nb_free fq (u32 nb)).1 →
   ∃ fq',
     umem_fill_to_kernel fq d nb = (0, fq') ∧
     uptrs_producer (u_ring fq') = u32 (u_cached_prod fq + nb) ∧
     u_cached_prod fq' = u32 (u_cached_prod fq + nb) ∧
     uptrs_consumer (u_ring fq') = uptrs_consumer (u_ring fq) ∧
     length (umem_desc (u_ring fq')) = length (umem_desc (u_ring fq)) ∧
     ring_read (u_mask fq) (u_cached_prod fq) (Z.to_nat nb)
               (umem_desc (u_ring fq')) = take (Z.to_nat nb) d ∧
     (∀ p : nat,
        (∀ j, (j < Z.to_nat nb)%nat → p ≠ uslot (u_mask fq) (u_cached_prod fq) j) →
        umem_desc (u_ring fq') !! p = umem_desc (u_ring fq) !! p)).
Proof.
  intros Hnb.
  assert ((umem_nb_free fq (u32 nb)).1 < nb →
          (umem_fill_to_kernel fq d nb).1 = - ENOSPC ∧
          u_ring (umem_fill_to_kernel fq d nb).2 = u_ring fq ∧
          u_cached_prod (umem_fill_to_kernel fq d nb).2 = u_cached_prod fq)
    as Hrefuse.
  { intros Hless. unfold umem_fill_to_kernel.
    destruct (umem_nb_free_frame fq (u32 nb)) as (Hcp & _ & _ & Hr).
    destruct (umem_nb_free fq (u32 nb)) as [nfree fq1]. simpl in *.
    destruct (Z.ltb_spec nfree nb); [done|lia]. }
  split; [exact Hrefuse|]. split.
  - intros Hbig. apply Hrefuse. unfold umem_nb_free.
    destruct (u32 nb <=? _); simpl;
      match goal with |- u32 ?x < _ => pose proof (u32_range x) end; lia.
  - intros (Hpow & Hsize & Hlen) Hcp Hn Hd Hfree. unfold umem_fill_to_kernel.
    destruct (umem_nb_free_frame fq (u32 nb)) as (Hcp1 & Hm & Hs & Hr).
    destruct (umem_nb_free fq (u32 nb)) as [nfree fq1]. simpl in *.
    destruct (Z.ltb_spec nfree nb); [lia|].
    destruct (umem_fill_loop_spec (Z.to_nat nb) 0 d fq1)
      as (Hd' & Hp & Hc & Hm' & Hs' & Hr'); try lia.
    eexists. split; [reflexivity|]. simpl.
    rewrite Hd', Hp, Hr', Hm, Hr, Hcp1, iter_u32_succ by done.
    rewrite Z2Nat.id by lia. simpl.
    assert (length (take (Z.to_nat nb) d) = Z.to_nat nb) as Htake
      by (rewrite length_take; lia).
    repeat split; try done.
    + by rewrite ring_write_length.
    + rewrite <- Htake at 1. apply ring_read_write; try done; [lia..].
    + intros p Hp'. apply ring_write_other; [done|lia|].
      intros j Hj. apply Hp'. rewrite length_take in Hj. lia.
Qed.

Lemma umem_fill_to_kernel_fifo_witness :
  (umem_fill_to_kernel
     (mk_umem_uqueue 4 0 3 4 (mk_umem_ring 4 0 [0; 1; 2; 3])) [9] 1).1
    = - ENOSPC ∧
  (umem_fill_to_kernel
     (mk_umem_uqueue 4 0 3 4 (mk_umem_ring 4 0 [0; 1; 2; 3])) [9] (2 ^ 32)).1
    = - ENOSPC ∧
  ∃ fq',
    umem_fill_to_kernel
      (mk_umem_uqueue 4 0 3 4 (mk_umem_ring 4 2 [0; 1; 2; 3])) [9; 8] 2
      = (0, fq') ∧
    uptrs_producer (u_ring fq') = 6 ∧
    ring_read 3 4 2 (umem_desc (u_ring fq')) = [9; 8].
Proof.
  split; [|split].
  - destruct (umem_fill_to_kernel_fifo
                (mk_umem_uqueue 4 0 3 4 (mk_umem_ring 4 0 [0; 1; 2; 3])) [9] 1)
      as [Hrefuse _]; [lia|].
    apply Hrefuse. by vm_compute.
  - destruct (umem_fill_to_kernel_fifo
                (mk_umem_uqueue 4 0 3 4 (mk_umem_ring 4 0 [0; 1; 2; 3])) [9]
                (2 ^ 32)) as (_ & Hbig & _); [lia|].
    apply Hbig. lia.
  - destruct (umem_fill_to_kernel_fifo
                (mk_umem_uqueue 4 0 3 4 (mk_umem_ring 4 2 [0; 1; 2; 3]))
                [9; 8] 2) as (_ & _ & Hok); [lia|].
    destruct Hok as (fq' & Hk & Hp & _ & _ & _ & Hread & _).
    + split; [exists 2; by vm_compute | by vm_compute].
    + by vm_compute.
    + by vm_compute.
    + vm_compute. lia.
    + by vm_compute.
    + exists fq'. split; [exact Hk|]. split; [exact Hp | exact Hread].
Defined.

Lemma umem_nb_avail_spec q n :
  umem_nb_avail q n
    = (Z.min n (if u32 (u_cached_prod q - u_cached_cons q) =? 0
                then u32 (uptrs_producer (u_ring q) - u_cached_cons q)
                else u32 (u_cached_prod q - u_cached_cons q)),
       if u32 (u_cached_prod q - u_cached_cons q) =? 0
       then mk_umem_uqueue (uptrs_producer (u_ring q)) (u_cached_cons q)
                           (u_mask q) (u_size q) (u_ring q)
       else q).
Proof.
  unfold umem_nb_avail. destruct (u32 (u_cached_prod q - u_cached_cons q) =? 0);
    simpl; f_equal;
    match goal with
    | |- (if ?a <? ?b then _ else _) = _ => destruct (Z.ltb_spec a b); lia
    end.
Qed.

(** umem_complete_from_kernel hands out the oldest completed indices in
    ring order: as many as are available, at most [nb]; it advances the
    cached consumer by that count and publishes it when the count is
    positive.  With nothing completed it returns nothing and does not write
    to the shared ring. *)
Theorem umem_complete_from_kernel_oldest cq nb :
  umem_uqueue_wf cq →
  0 ≤ u_cached_cons cq < 2 ^ 32 →
  0 ≤ nb < 2 ^ 32 →
  ∃ cq',
    umem_complete_from_kernel cq nb
      = (ring_read (u_mask cq) (u_cached_cons cq)
           (Z.to_nat (umem_nb_avail cq nb).1) (umem_desc (u_ring cq)), cq') ∧
    0 ≤ (umem_nb_avail cq nb).1 ≤ nb ∧
    u_cached_cons cq' = u32 (u_cached_cons cq + (umem_nb_avail cq nb).1) ∧
    umem_desc (u_ring cq') = umem_desc (u_ring cq) ∧
    uptrs_producer (u_ring cq') = uptrs_producer (u_ring cq) ∧
    (0 < (umem_nb_avail cq nb).1 →
     uptrs_consumer (u_ring cq')
       = u32 (u_cached_cons cq + (umem_nb_avail cq nb).1)) ∧
    ((umem_nb_avail cq nb).1 = 0 → u_ring cq' = u_ring cq).
Proof.
  intros (Hpow & Hsize & Hlen) Hcc Hn. unfold umem_complete_from_kernel.
  rewrite (u32_small nb) by lia.
  rewrite umem_nb_avail_spec. simpl.
  set (avail := Z.min nb _).
  set (cq1 := if _ =? 0 then _ else cq).
  assert (0 ≤ avail ≤ nb) as Havail.
  { subst avail. destruct (_ =? 0);
      [pose proof (u32_range (uptrs_producer (u_ring cq) - u_cached_cons cq))
      |pose proof (u32_range (u_cached_prod cq - u_cached_cons cq))]; lia. }
  assert (u_cached_cons cq1 = u_cached_cons cq ∧ u_mask cq1 = u_mask cq ∧
          u_ring cq1 = u_ring cq) as (Hc1 & Hm1 & Hr1)
    by (subst cq1; by destruct (_ =? 0)).
  rewrite umem_complete_loop_spec; rewrite ?Hc1, ?Hm1, ?Hr1; try done; [|lia].
  rewrite Z2Nat.id by lia.
  destruct (Z.ltb_spec 0 avail).
  - eexists. split; [reflexivity|]. simpl.
    repeat split; try done; lia.
  - eexists. split; [reflexivity|]. simpl.
    repeat split; try done; lia.
Qed.

Lemma umem_complete_from_kernel_oldest_witness :
  ∃ cq',
    umem_complete_from_kernel
      (mk_umem_uqueue 1 1 3 4 (mk_umem_ring 3 1 [10; 11; 12; 13])) 16
      = ([11; 12], cq') ∧
    uptrs_consumer (u_ring cq') = 3.
Proof.
  destruct (umem_complete_from_kernel_oldest
              (mk_umem_uqueue 1 1 3 4 (mk_umem_ring 3 1 [10; 11; 12; 13])) 16)
    as (cq' & Hk & _ & _ & _ & _ & Hc & _).
  - split; [exists 2; by vm_compute | by vm_compute].
  - by vm_compute.
  - by vm_compute.
  - exists cq'. split; [exact Hk|]. apply Hc. by vm_compute.
Defined.
